(** * Cargo stowage engine: containers, placement, retrieval, rearrangement

    A shallow embedding of the spatial core of the cargo management
    service: the [Container] model (models/container.js), the placement
    and rearrangement service (services/placement-service.js), the
    retrieval-step computation (services/retrieval-service.js and
    services/waste-service.js), the in-memory database
    (services/database.js) and the placement route (routes/placement.js).

    Numbers are modelled as [Z]: coordinates are produced by the unit-step
    scan of [findPositionInContainer] and dimensions are taken integral.
    JavaScript objects that are mutated in place (containers held in a
    [Map], items held by the database) are modelled by an explicit store
    that is threaded through the calls; an object is identified by its
    slot in the store, so that aliases of one object see the same state. *)

From Stdlib Require Import ZArith Lia List String Bool.
From stdpp Require Import gmap strings list.
Import ListNotations.
Local Open Scope Z_scope.

(** ** Data model *)

(** [{ width, depth, height }] *)
Record Coordinates := mkCoordinates {
  width : Z;
  depth : Z;
  height : Z
}.

(** [{ startCoordinates, endCoordinates }] *)
Record Position := mkPosition {
  startCoordinates : Coordinates;
  endCoordinates : Coordinates
}.

(** models/item.js, the fields the engine reads or writes. *)
Record Item := mkItem {
  itemId : string;
  name : string;
  item_width : Z;
  item_depth : Z;
  item_height : Z;
  priority : Z;
  preferredZone : string;
  item_containerId : option string;
  item_position : option Position
}.

(** A record of [container.items]: the object [{ ...item, position }]
    built by [addItem], i.e. every field of the item with its [position]
    overridden. *)
Record PlacedItem := mkPlaced {
  placed : Item;
  position : Position
}.

(** models/container.js *)
Record Container := mkContainer {
  containerId : string;
  zone : string;
  cont_width : Z;
  cont_depth : Z;
  cont_height : Z;
  items : list PlacedItem
}.

Definition placedId (p : PlacedItem) : string := itemId (placed p).

Definition with_items (c : Container) (l : list PlacedItem) : Container :=
  mkContainer (containerId c) (zone c) (cont_width c) (cont_depth c)
              (cont_height c) l.

(** ** Container methods *)

Definition getTotalVolume (c : Container) : Z :=
  cont_width c * cont_depth c * cont_height c.

Definition getOccupiedVolume (c : Container) : Z :=
  fold_left
    (fun total it =>
       total + item_width (placed it) * item_depth (placed it)
               * item_height (placed it))
    (items c) 0.

Definition getAvailableVolume (c : Container) : Z :=
  getTotalVolume c - getOccupiedVolume c.

Definition itemsOverlap (pos1 pos2 : Position) : bool :=
  negb
    ((width (endCoordinates pos1) <=? width (startCoordinates pos2))
     || (width (startCoordinates pos1) >=? width (endCoordinates pos2))
     || (depth (endCoordinates pos1) <=? depth (startCoordinates pos2))
     || (depth (startCoordinates pos1) >=? depth (endCoordinates pos2))
     || (height (endCoordinates pos1) <=? height (startCoordinates pos2))
     || (height (startCoordinates pos1) >=? height (endCoordinates pos2))).

(** The loop [for (const existingItem of this.items)] of [canFitItem]. *)
Fixpoint overlapsNone (l : list PlacedItem) (pos : Position) : bool :=
  match l with
  | [] => true
  | existingItem :: l' =>
      if itemsOverlap (position existingItem) pos then false
      else overlapsNone l' pos
  end.

Definition outOfBounds (c : Container) (pos : Position) : bool :=
  (width (startCoordinates pos) <? 0)
  || (depth (startCoordinates pos) <? 0)
  || (height (startCoordinates pos) <? 0)
  || (width (endCoordinates pos) >? cont_width c)
  || (depth (endCoordinates pos) >? cont_depth c)
  || (height (endCoordinates pos) >? cont_height c).

Definition canFitItem (c : Container) (item : Item) (pos : Position) : bool :=
  if outOfBounds c pos then false else overlapsNone (items c) pos.

(** [addItem] pushes the record at the end of [items] and returns
    whether it did. *)
Definition addItem (c : Container) (item : Item) (pos : Position)
  : bool * Container :=
  if canFitItem c item pos
  then (true, with_items c (items c ++ [mkPlaced item pos]))
  else (false, c).

(** [findIndex] followed by [splice(index, 1)]. *)
Fixpoint removeFirst (id : string) (l : list PlacedItem)
  : option PlacedItem * list PlacedItem :=
  match l with
  | [] => (None, [])
  | it :: l' =>
      if String.eqb (placedId it) id then (Some it, l')
      else let '(r, l'') := removeFirst id l' in (r, it :: l'')
  end.

Definition removeItem (c : Container) (id : string)
  : option PlacedItem * Container :=
  match removeFirst id (items c) with
  | (Some removedItem, l) => (Some removedItem, with_items c l)
  | (None, _) => (None, c)
  end.

Definition findItem (c : Container) (id : string) : option PlacedItem :=
  List.find (fun it => String.eqb (placedId it) id) (items c).

(** The predicate of the [filter] in [getItemsToMove]. *)
Definition blocks (id : string) (targetItem item : PlacedItem) : bool :=
  if String.eqb (placedId item) id then false
  else
    (depth (startCoordinates (position item))
       <? depth (startCoordinates (position targetItem)))
    && negb
         ((width (endCoordinates (position item))
             <=? width (startCoordinates (position targetItem)))
          || (width (startCoordinates (position item))
                >=? width (endCoordinates (position targetItem)))
          || (height (endCoordinates (position item))
                <=? height (startCoordinates (position targetItem)))
          || (height (startCoordinates (position item))
                >=? height (endCoordinates (position targetItem)))).

Definition getItemsToMove (c : Container) (id : string) : list PlacedItem :=
  match findItem c id with
  | None => []
  | Some targetItem => List.filter (blocks id targetItem) (items c)
  end.


(** ** Placement service: first-fit scan *)

Section FindPosition.
Variables (item : Item) (container : Container).

(** The candidate box with origin [(x, y, z)]. *)
Definition positionAt (x y z : Z) : Position :=
  mkPosition (mkCoordinates x y z)
             (mkCoordinates (x + item_width item) (y + item_depth item)
                            (z + item_height item)).

(** [while (x + item.width <= container.width)]; the fuel bounds the
    number of evaluations of the guard. *)
Fixpoint scanWidth (fuel : nat) (x y z : Z) : option Position :=
  match fuel with
  | O => None
  | S fuel' =>
      if x + item_width item <=? cont_width container then
        if canFitItem container item (positionAt x y z)
        then Some (positionAt x y z)
        else scanWidth fuel' (x + 1) y z
      else None
  end.

(** Guards of the three loops hold for at most this many values. *)
Definition widthFuel : nat :=
  Z.to_nat (cont_width container - item_width item + 1).
Definition depthFuel : nat :=
  Z.to_nat (cont_depth container - item_depth item + 1).
Definition heightFuel : nat :=
  Z.to_nat (cont_height container - item_height item + 1).

(** [while (y + item.depth <= container.depth)]; [x] is 0 on entry and
    is reset to 0 after each inner loop. *)
Fixpoint scanDepth (fuel : nat) (y z : Z) : option Position :=
  match fuel with
  | O => None
  | S fuel' =>
      if y + item_depth item <=? cont_depth container then
        match scanWidth widthFuel 0 y z with
        | Some pos => Some pos
        | None => scanDepth fuel' (y + 1) z
        end
      else None
  end.

(** [while (z + item.height <= container.height)]. *)
Fixpoint scanHeight (fuel : nat) (z : Z) : option Position :=
  match fuel with
  | O => None
  | S fuel' =>
      if z + item_height item <=? cont_height container then
        match scanDepth depthFuel 0 z with
        | Some pos => Some pos
        | None => scanHeight fuel' (z + 1)
        end
      else None
  end.

Definition findPositionInContainer : option Position :=
  if (item_width item >? cont_width container)
     || (item_depth item >? cont_depth container)
     || (item_height item >? cont_height container)
  then None
  else scanHeight heightFuel 0.
End FindPosition.

(** Scan order of the candidate origins: height outermost, depth middle,
    width innermost. *)
Definition scanBefore (a b : Z * Z * Z) : Prop :=
  let '(x', y', z') := a in
  let '(x, y, z) := b in
  z' < z \/ (z' = z /\ (y' < y \/ (y' = y /\ x' < x))).

(** ** In-memory database (services/database.js) *)

Record Log := mkLog {
  log_timestamp : option string;   (* [None]: the clock's [new Date()] *)
  log_userId : string;
  log_actionType : string;
  log_itemId : string;
  log_toContainer : string
}.

Record Database := mkDatabase {
  db_items : gmap string Item;
  db_containers : gmap string Container;
  db_logs : list Log
}.

Module db.
Definition getItem (d : Database) (id : string) : option Item :=
  db_items d !! id.

Definition addItem (d : Database) (item : Item) : Database :=
  mkDatabase (<[itemId item := item]> (db_items d)) (db_containers d)
             (db_logs d).

Definition updateItem (d : Database) (item : Item) : Database :=
  mkDatabase (<[itemId item := item]> (db_items d)) (db_containers d)
             (db_logs d).

Definition getContainer (d : Database) (id : string) : option Container :=
  db_containers d !! id.

Definition addContainer (d : Database) (c : Container) : Database :=
  mkDatabase (db_items d) (<[containerId c := c]> (db_containers d))
             (db_logs d).

Definition updateContainer (d : Database) (c : Container) : Database :=
  mkDatabase (db_items d) (<[containerId c := c]> (db_containers d))
             (db_logs d).

Definition addLog (d : Database) (l : Log) : Database :=
  mkDatabase (db_items d) (db_containers d) (db_logs d ++ [l]).

(** In-place mutation of the item object stored under key [k]. *)
Definition mutateItem (d : Database) (k : string) (item : Item) : Database :=
  mkDatabase (<[k := item]> (db_items d)) (db_containers d) (db_logs d).

(** In-place mutation of the container object stored under key [k]. *)
Definition mutateContainer (d : Database) (k : string) (c : Container)
  : Database :=
  mkDatabase (db_items d) (<[k := c]> (db_containers d)) (db_logs d).
End db.

(** ** Output records *)

Inductive Action := remove | setAside | retrieve | placeBack | place.

Record Placement := mkPlacement {
  pl_itemId : string;
  pl_containerId : string;
  pl_position : Position
}.

Record RearrangementStep := mkRearrangementStep {
  ra_step : Z;
  ra_action : Action;
  ra_itemId : string;
  fromContainer : option string;
  fromPosition : option Position;
  toContainer : option string;
  toPosition : option Position
}.

Record RetrievalStep := mkRetrievalStep {
  rt_step : Z;
  rt_action : Action;
  rt_itemId : string;
  rt_itemName : string
}.

(** ** [Array.prototype.sort] with a comparator (stable) *)

Section Sort.
Context {A : Type} (cmp : A -> A -> Z).

(** [x] goes before the first element that must follow it, hence after
    every earlier element that compares equal. *)
Fixpoint insertSorted (x : A) (l : list A) : list A :=
  match l with
  | [] => [x]
  | y :: l' =>
      if cmp x y <? 0 then x :: y :: l' else y :: insertSorted x l'
  end.

Definition sortBy (l : list A) : list A :=
  fold_left (fun acc x => insertSorted x acc) l [].
End Sort.

(** ** The working containers: values of [containerMap]

    [containerMap] is a [Map] from container id to a [Container] object.
    The service only iterates over [containerMap.values()] and mutates
    the objects it finds there, so the working state is the list of the
    values in insertion order; an object is named by its index. *)

Fixpoint mapSet (k : string) (v : Container) (m : list (string * Container))
  : list (string * Container) :=
  match m with
  | [] => [(k, v)]
  | (k', v') :: m' =>
      if String.eqb k' k then (k, v) :: m' else (k', v') :: mapSet k v m'
  end.

Definition mapValues (m : list (string * Container)) : list Container :=
  map snd m.

(** Indices, in iteration order, of the containers satisfying [p]. *)
Definition indicesWhere (p : Container -> bool) (store : list Container)
  : list nat :=
  List.filter
    (fun i => match store !! i with Some c => p c | None => false end)
    (seq 0 (length store)).

Definition availableAt (store : list Container) (i : nat) : Z :=
  match store !! i with
  | Some c => getAvailableVolume c
  | None => 0
  end.

(** [Array.from(containerMap.values()).sort((a, b) =>
       b.getAvailableVolume() - a.getAvailableVolume())] *)
Definition sortedContainers (store : list Container) : list nat :=
  sortBy (fun a b => availableAt store b - availableAt store a)
         (seq 0 (length store)).

(** ** Rearrangement (placement-service.js, rearrangeForUnplacedItems) *)

Record RState := mkRState {
  r_store : list Container;
  r_placements : list Placement;
  r_rearrangements : list RearrangementStep;
  r_step : Z
}.

Definition dbPriority (d : Database) (id : string) : Z :=
  match db.getItem d id with
  | Some dbItem => priority dbItem
  | None => 0
  end.

(** [container.items.filter(...).sort(...)]: the occupants the database
    knows with a priority strictly below the item's, lowest first. *)
Definition lowPriorityItems (d : Database) (item : Item) (c : Container)
  : list PlacedItem :=
  sortBy
    (fun a b => dbPriority d (placedId a) - dbPriority d (placedId b))
    (List.filter
       (fun containerItem =>
          match db.getItem d (placedId containerItem) with
          | Some dbItem => priority dbItem <? priority item
          | None => false
          end)
       (items c)).

(** [for (const otherContainer of sortedContainers)] looking for a new
    home of the removed occupant; the flag is [newHome]. *)
Fixpoint rehome (low : PlacedItem) (cid : string) (others : list nat)
  (st : RState) : bool * RState :=
  match others with
  | [] => (false, st)
  | j :: rest =>
      match r_store st !! j with
      | None => rehome low cid rest st
      | Some otherContainer =>
          if String.eqb (containerId otherContainer) cid
          then rehome low cid rest st
          else
            match findPositionInContainer (placed low) otherContainer with
            | Some otherPosition =>
                (true,
                 mkRState
                   (<[j := snd (addItem otherContainer (placed low)
                                        otherPosition)]> (r_store st))
                   (r_placements st)
                   (r_rearrangements st ++
                      [mkRearrangementStep (r_step st) place (placedId low)
                         None None
                         (Some (containerId otherContainer))
                         (Some otherPosition)])
                   (r_step st + 1))
            | None => rehome low cid rest st
            end
      end
  end.

(** [for (const lowPriorityItem of lowPriorityItems)] on the container at
    index [i]. *)
Fixpoint evictLoop (item : Item) (i : nat) (sorted : list nat)
  (lows : list PlacedItem) (st : RState) : RState :=
  match lows with
  | [] => st
  | lowPriorityItem :: rest =>
      match r_store st !! i with
      | None => st
      | Some container0 =>
          let container1 :=
            snd (removeItem container0 (placedId lowPriorityItem)) in
          match findPositionInContainer item container1 with
          | Some newPosition =>
              let container2 := snd (addItem container1 item newPosition) in
              let st2 :=
                mkRState
                  (<[i := container2]> (r_store st))
                  (r_placements st ++
                     [mkPlacement (itemId item) (containerId container1)
                                  newPosition])
                  (r_rearrangements st ++
                     [mkRearrangementStep (r_step st) remove
                        (placedId lowPriorityItem)
                        (Some (containerId container1))
                        (Some (position lowPriorityItem)) None None;
                      mkRearrangementStep (r_step st + 1) place
                        (itemId item) None None
                        (Some (containerId container1))
                        (Some newPosition)])
                  (r_step st + 2) in
              let '(newHome, st3) :=
                rehome lowPriorityItem (containerId container2) sorted st2 in
              if newHome then st3
              else
                match r_store st3 !! i with
                | None => st3
                | Some container3 =>
                    mkRState
                      (<[i := snd (addItem container3 (placed lowPriorityItem)
                                           (position lowPriorityItem))]>
                         (r_store st3))
                      (r_placements st3)
                      (r_rearrangements st3 ++
                         [mkRearrangementStep (r_step st3) place
                            (placedId lowPriorityItem) None None
                            (Some (containerId container3))
                            (Some (position lowPriorityItem))])
                      (r_step st3 + 1)
                end
          | None =>
              evictLoop item i sorted rest
                (mkRState
                   (<[i := snd (addItem container1 (placed lowPriorityItem)
                                        (position lowPriorityItem))]>
                      (r_store st))
                   (r_placements st) (r_rearrangements st) (r_step st))
          end
      end
  end.

(** [for (const container of sortedContainers)]: a direct fit ends the
    loop; the [break] of the eviction loop does not. *)
Fixpoint containerLoop (d : Database) (item : Item) (sorted todo : list nat)
  (st : RState) : RState :=
  match todo with
  | [] => st
  | i :: rest =>
      match r_store st !! i with
      | None => containerLoop d item sorted rest st
      | Some container =>
          match findPositionInContainer item container with
          | Some pos =>
              mkRState
                (<[i := snd (addItem container item pos)]> (r_store st))
                (r_placements st ++
                   [mkPlacement (itemId item) (containerId container) pos])
                (r_rearrangements st) (r_step st)
          | None =>
              containerLoop d item sorted rest
                (evictLoop item i sorted (lowPriorityItems d item container)
                           st)
          end
      end
  end.

Definition rearrangeItem (d : Database) (st : RState) (item : Item)
  : RState :=
  let sorted := sortedContainers (r_store st) in
  containerLoop d item sorted sorted st.

(** The state of the pass after its last item; the service returns the
    placements and the rearrangements, the containers are the mutated
    values of [containerMap]. *)
Definition rearrangeRun (d : Database) (unplacedItems : list Item)
  (store : list Container) : RState :=
  fold_left (rearrangeItem d) unplacedItems (mkRState store [] [] 1).

Definition rearrangeForUnplacedItems (d : Database)
  (unplacedItems : list Item) (store : list Container)
  : list Placement * list RearrangementStep :=
  let st := rearrangeRun d unplacedItems store in
  (r_placements st, r_rearrangements st).

(** ** Batch placement (placement-service.js, findOptimalPlacement) *)

Record PlacementResult := mkPlacementResult {
  success : bool;
  placements : list Placement;
  rearrangements : list RearrangementStep
}.

(** [containers.forEach(c => containerMap.set(c.containerId,
       new Container({ ...c, items: [] })))] *)
Definition buildContainerMap (containers : list Container)
  : list (string * Container) :=
  fold_left (fun m c => mapSet (containerId c) (with_items c []) m)
            containers [].

(** One of the two loops [for (const container of ...)] of the first
    pass: the first candidate with a position wins. *)
Fixpoint placeFirstFit (item : Item) (candidates : list nat)
  (store : list Container) : option (Placement * list Container) :=
  match candidates with
  | [] => None
  | i :: rest =>
      match store !! i with
      | None => placeFirstFit item rest store
      | Some container =>
          match findPositionInContainer item container with
          | Some pos =>
              Some (mkPlacement (itemId item) (containerId container) pos,
                    <[i := snd (addItem container item pos)]> store)
          | None => placeFirstFit item rest store
          end
      end
  end.

Record PassState := mkPassState {
  p_store : list Container;
  p_placements : list Placement;
  p_unplaced : list Item
}.

(** Body of [for (const item of sortedItems)]. *)
Definition placeOne (st : PassState) (item : Item) : PassState :=
  let preferredContainers :=
    indicesWhere (fun c => String.eqb (zone c) (preferredZone item))
                 (p_store st) in
  match placeFirstFit item preferredContainers (p_store st) with
  | Some (pl, store') =>
      mkPassState store' (p_placements st ++ [pl]) (p_unplaced st)
  | None =>
      let allContainers :=
        indicesWhere
          (fun c => negb (String.eqb (zone c) (preferredZone item)))
          (p_store st) in
      match placeFirstFit item allContainers (p_store st) with
      | Some (pl, store') =>
          mkPassState store' (p_placements st ++ [pl]) (p_unplaced st)
      | None =>
          mkPassState (p_store st) (p_placements st)
                      (p_unplaced st ++ [item])
      end
  end.

Definition sortedItems (items : list Item) : list Item :=
  sortBy (fun a b => priority b - priority a) items.

Definition firstPass (items : list Item) (containers : list Container)
  : PassState :=
  fold_left placeOne (sortedItems items)
            (mkPassState (mapValues (buildContainerMap containers)) [] []).

(** The result together with the final state of the working containers. *)
Definition findOptimalPlacementRun (d : Database) (items : list Item)
  (containers : list Container) : PlacementResult * list Container :=
  let st := firstPass items containers in
  let r :=
    if (0 <? length (p_unplaced st))%nat
    then rearrangeRun d (p_unplaced st) (p_store st)
    else mkRState (p_store st) [] [] 1 in
  (mkPlacementResult
     ((length (p_unplaced st) =? 0)%nat
      || (0 <? length (r_rearrangements r))%nat)
     (p_placements st ++ r_placements r)
     (r_rearrangements r),
   r_store r).

Definition findOptimalPlacement (d : Database) (items : list Item)
  (containers : list Container) : PlacementResult :=
  fst (findOptimalPlacementRun d items containers).

(** ** Placement route (routes/placement.js, POST /api/placement) *)

(** [containers.map(c => db.getContainer(c.containerId) || new Container(c))] *)
Definition containerObjects (d : Database) (containers : list Container)
  : list Container :=
  map (fun c =>
         match db.getContainer d (containerId c) with
         | Some existingContainer => existingContainer
         | None => c
         end)
      containers.

Definition setPlacement (item : Item) (cid : string) (pos : Position) : Item :=
  mkItem (itemId item) (name item) (item_width item) (item_depth item)
         (item_height item) (priority item) (preferredZone item)
         (Some cid) (Some pos).

Definition placementRoute (d : Database) (items : list Item)
  (containers : list Container) : PlacementResult * Database :=
  let objs := containerObjects d containers in
  let result := findOptimalPlacement d items objs in
  if success result then
    let d1 := fold_left db.addContainer objs d in
    let d2 :=
      fold_left
        (fun d' pl =>
           match List.find (fun it => String.eqb (itemId it) (pl_itemId pl))
                           items with
           | Some item =>
               db.addItem d'
                 (setPlacement item (pl_containerId pl) (pl_position pl))
           | None => d'
           end)
        (placements result) d1 in
    (result, d2)
  else (result, d).

(** ** Retrieval steps (retrieval-service.js, calculateRetrievalSteps) *)

(** [for (const item of itemsToMove)]: a [remove] and a [setAside] step
    per item; returns the steps and the next step number. *)
Fixpoint removeSteps (itemsToMove : list PlacedItem) (stepNumber : Z)
  : list RetrievalStep * Z :=
  match itemsToMove with
  | [] => ([], stepNumber)
  | item :: rest =>
      let '(steps, n) := removeSteps rest (stepNumber + 2) in
      (mkRetrievalStep stepNumber remove (placedId item) (name (placed item))
         :: mkRetrievalStep (stepNumber + 1) setAside (placedId item)
              (name (placed item))
         :: steps,
       n)
  end.

(** [for (let i = itemsToMove.length - 1; i >= 0; i--)], entered with
    [n = i + 1]. *)
Fixpoint placeBackSteps (itemsToMove : list PlacedItem) (n : nat)
  (stepNumber : Z) : list RetrievalStep :=
  match n with
  | O => []
  | S i =>
      match itemsToMove !! i with
      | Some item =>
          mkRetrievalStep stepNumber placeBack (placedId item)
                          (name (placed item))
            :: placeBackSteps itemsToMove i (stepNumber + 1)
      | None => placeBackSteps itemsToMove i (stepNumber + 1)
      end
  end.

(** [None] stands for the [TypeError] of [db.getItem(itemId).name] when
    the database has no such item. *)
Definition calculateRetrievalSteps (d : Database) (id : string)
  (container : Container) : option (list RetrievalStep) :=
  let itemsToMove := getItemsToMove container id in
  if (length itemsToMove =? 0)%nat then
    match db.getItem d id with
    | Some target => Some [mkRetrievalStep 1 retrieve id (name target)]
    | None => None
    end
  else
    let '(steps, n) := removeSteps itemsToMove 1 in
    match db.getItem d id with
    | Some target =>
        Some (steps
                ++ [mkRetrievalStep n retrieve id (name target)]
                ++ placeBackSteps itemsToMove (length itemsToMove) (n + 1))
    | None => None
    end.

(** waste-service.js carries its own copy of the computation. *)
Module WasteService.
Definition calculateRetrievalSteps (d : Database) (id : string)
  (container : Container) : option (list RetrievalStep) :=
  let itemsToMove := getItemsToMove container id in
  if (length itemsToMove =? 0)%nat then
    match db.getItem d id with
    | Some target => Some [mkRetrievalStep 1 retrieve id (name target)]
    | None => None
    end
  else
    let '(steps, n) := removeSteps itemsToMove 1 in
    match db.getItem d id with
    | Some target =>
        Some (steps
                ++ [mkRetrievalStep n retrieve id (name target)]
                ++ placeBackSteps itemsToMove (length itemsToMove) (n + 1))
    | None => None
    end.
End WasteService.

(** ** Manual placement (retrieval-service.js, placeItem) *)

(** JavaScript truthiness of [item.containerId]. *)
Definition truthyId (o : option string) : option string :=
  match o with
  | Some s => if String.eqb s "" then None else Some s
  | None => None
  end.

Definition placeItem (d : Database) (id userId : string)
  (timestamp : option string) (cid : string) (pos : Position)
  : bool * Database :=
  match db.getItem d id with
  | None => (false, d)
  | Some item =>
      match db.getContainer d cid with
      | None => (false, d)
      | Some container =>
          if negb (canFitItem container item pos) then (false, d)
          else
            let d1 :=
              match truthyId (item_containerId item) with
              | Some old =>
                  match db.getContainer d old with
                  | Some oldContainer =>
                      let oldContainer' := snd (removeItem oldContainer id) in
                      db.updateContainer
                        (db.mutateContainer d old oldContainer')
                        oldContainer'
                  | None => d
                  end
              | None => d
              end in
            let item' := setPlacement item cid pos in
            let d2 := db.updateItem (db.mutateItem d1 id item') item' in
            (* [container] is the object stored under [cid] *)
            let container' :=
              match db.getContainer d2 cid with
              | Some c => snd (addItem c item' pos)
              | None => snd (addItem container item' pos)
              end in
            let d3 :=
              db.updateContainer (db.mutateContainer d2 cid container')
                                 container' in
            (true,
             db.addLog d3 (mkLog timestamp userId "placement" id cid))
      end
  end.

(** ** Invariants of the data model *)

(** No two records of the list have overlapping boxes. *)
Fixpoint NoOverlap (l : list PlacedItem) : Prop :=
  match l with
  | [] => True
  | a :: l' =>
      Forall (fun b => itemsOverlap (position a) (position b) = false) l'
      /\ NoOverlap l'
  end.

(** Separating-axis formulation: the boxes are disjoint along an axis. *)
Definition disjointAlongAnAxis (p q : Position) : Prop :=
  width (endCoordinates p) <= width (startCoordinates q)
  \/ width (endCoordinates q) <= width (startCoordinates p)
  \/ depth (endCoordinates p) <= depth (startCoordinates q)
  \/ depth (endCoordinates q) <= depth (startCoordinates p)
  \/ height (endCoordinates p) <= height (startCoordinates q)
  \/ height (endCoordinates q) <= height (startCoordinates p).

(** Every pair of records at distinct slots is disjoint along an axis. *)
Definition PairwiseDisjoint (l : list PlacedItem) : Prop :=
  forall (i j : nat) (a b : PlacedItem),
    i <> j -> l !! i = Some a -> l !! j = Some b ->
    disjointAlongAnAxis (position a) (position b).

Definition inBounds (c : Container) (pos : Position) : Prop :=
  0 <= width (startCoordinates pos)
  /\ 0 <= depth (startCoordinates pos)
  /\ 0 <= height (startCoordinates pos)
  /\ width (endCoordinates pos) <= cont_width c
  /\ depth (endCoordinates pos) <= cont_depth c
  /\ height (endCoordinates pos) <= cont_height c.

(** Container operations as data, to speak of arbitrary sequences. *)
Inductive ContainerOp :=
| OpAdd (item : Item) (pos : Position)
| OpRemove (id : string).

Definition applyOp (c : Container) (op : ContainerOp) : Container :=
  match op with
  | OpAdd item pos => snd (addItem c item pos)
  | OpRemove id => snd (removeItem c id)
  end.

Definition applyOps (c : Container) (ops : list ContainerOp) : Container :=
  fold_left applyOp ops c.

(** Ids of the records of every container of a store, with repetitions. *)
Definition placedIds (store : list Container) : list string :=
  concat (map (fun c => map placedId (items c)) store).

(** Number of records with id [id] in the whole store. *)
Definition occurrences (id : string) (store : list Container) : nat :=
  length (List.filter (String.eqb id) (placedIds store)).

(** Every container of the store satisfies the invariant. *)
Definition StoreOk (store : list Container) : Prop :=
  Forall (fun c => NoOverlap (items c)) store.

(** Every container held by the database satisfies the invariant. *)
Definition DbOk (d : Database) : Prop :=
  map_Forall (fun _ c => NoOverlap (items c)) (db_containers d).

(** ** Specification-level vocabulary *)

(** Two intervals [s1, e1) and [s2, e2) of an axis overlap. *)
Definition intervalsOverlap (s1 e1 s2 e2 : Z) : Prop := s1 < e2 /\ s2 < e1.

(** [it] blocks the access to [target]: it is another item, it starts
    nearer to the opening on the depth axis, and its projections on the
    width and height axes overlap those of the target. *)
Definition Blocking (id : string) (target it : PlacedItem) : Prop :=
  placedId it <> id
  /\ depth (startCoordinates (position it))
     < depth (startCoordinates (position target))
  /\ intervalsOverlap
       (width (startCoordinates (position it)))
       (width (endCoordinates (position it)))
       (width (startCoordinates (position target)))
       (width (endCoordinates (position target)))
  /\ intervalsOverlap
       (height (startCoordinates (position it)))
       (height (endCoordinates (position it)))
       (height (startCoordinates (position target)))
       (height (endCoordinates (position target))).

#[local] Instance Blocking_dec id target it : Decision (Blocking id target it).
Proof. unfold Blocking, intervalsOverlap. apply _. Defined.

(** The transcript with stack discipline, before numbering: a [remove]
    and a [setAside] per blocking item in the given order, the [retrieve]
    of the target, a [placeBack] per blocking item in reverse order. *)
Definition stackTranscript (blocking : list PlacedItem) (id nm : string)
  : list (Action * string * string) :=
  flat_map
    (fun b => [(remove, placedId b, name (placed b));
               (setAside, placedId b, name (placed b))])
    blocking
  ++ [(retrieve, id, nm)]
  ++ map (fun b => (placeBack, placedId b, name (placed b))) (rev blocking).

(** Steps numbered consecutively from [n]. *)
Fixpoint numberFrom (n : Z) (l : list (Action * string * string))
  : list RetrievalStep :=
  match l with
  | [] => []
  | (a, id, nm) :: l' => mkRetrievalStep n a id nm :: numberFrom (n + 1) l'
  end.

Definition Action_eqb (a b : Action) : bool :=
  match a, b with
  | remove, remove | setAside, setAside | retrieve, retrieve
  | placeBack, placeBack | place, place => true
  | _, _ => false
  end.

Definition countAction (a : Action) (steps : list RetrievalStep) : nat :=
  length (List.filter (fun s => Action_eqb (rt_action s) a) steps).

(** ** Concrete scenarios *)

Module Scenario.
Local Open Scope string_scope.

Definition cube (id : string) (side pr : Z) : Item :=
  mkItem id id side side side pr "A" None None.

Definition box (x y z side : Z) : Position :=
  mkPosition (mkCoordinates x y z)
             (mkCoordinates (x + side) (y + side) (z + side)).

(** A 10 x 10 x 10 container [C1] holding item [A] at (0,0,0)-(4,4,4). *)
Definition A : Item := cube "A" 4 5.
Definition B : Item := cube "B" 4 3.
Definition C1 : Container := mkContainer "C1" "A" 10 10 10 [].
Definition C1withA : Container :=
  mkContainer "C1" "A" 10 10 10 [mkPlaced A (box 0 0 0 4)].

(** The database already holds [C1withA]; the request names [C1]. *)
Definition dbWithC1 : Database :=
  mkDatabase (<["A" := A]> ∅) (<["C1" := C1withA]> ∅) [].

(** A unit container full with the low-priority item [L]; [H] has
    priority 9. *)
Definition L : Item := cube "L" 1 1.
Definition H : Item := cube "H" 1 9.
Definition unitWithL : Container :=
  mkContainer "C1" "A" 1 1 1 [mkPlaced L (box 0 0 0 1)].
Definition dbWithL : Database := mkDatabase (<["L" := L]> ∅) ∅ [].

(** Two 2 x 2 x 2 containers, each holding a unit item of priority 1,
    and a spare container 1 x 1 x 100; [H2] is a 2 x 2 x 2 item of
    priority 9. *)
Definition L1 : Item := cube "L1" 1 1.
Definition L2 : Item := cube "L2" 1 1.
Definition H2 : Item := cube "H" 2 9.
Definition CA : Container :=
  mkContainer "CA" "A" 2 2 2 [mkPlaced L1 (box 0 0 0 1)].
Definition CB : Container :=
  mkContainer "CB" "A" 2 2 2 [mkPlaced L2 (box 0 0 0 1)].
Definition CD : Container := mkContainer "CD" "A" 1 1 100 [].
Definition dbWithL1L2 : Database :=
  mkDatabase (<["L2" := L2]> (<["L1" := L1]> ∅)) ∅ [].

(** A batch of three items for one unit container; the database knows
    [X] from an earlier import, with priority 1. *)
Definition X : Item := cube "X" 1 10.
Definition G : Item := cube "G" 5 8.
Definition unitC : Container := mkContainer "C1" "A" 1 1 1 [].
Definition dbWithX : Database :=
  mkDatabase (<["X" := cube "X" 1 1]> ∅) ∅ [].

(** The same three containers, empty and in zones of their own, and a
    batch in which [L1] and [L2] carry priority 10 while the database
    knows them with priority 1. *)
Definition cubeIn (zn id : string) (side pr : Z) : Item :=
  mkItem id id side side side pr zn None None.
Definition emptyCA : Container := mkContainer "CA" "A" 2 2 2 [].
Definition emptyCB : Container := mkContainer "CB" "B" 2 2 2 [].
Definition emptyCD : Container := mkContainer "CD" "D" 1 1 100 [].
Definition batchL1L2H : list Item :=
  [cubeIn "A" "L1" 1 10; cubeIn "B" "L2" 1 10; cubeIn "A" "H" 2 9].

(** Items [Y] and [Z] stand in front of [X], [W] stands beside. *)
Definition shelf : Container :=
  mkContainer "C1" "A" 10 10 10
    [mkPlaced (cube "X" 2 1) (box 0 4 0 2);
     mkPlaced (cube "Y" 2 1) (box 0 0 0 2);
     mkPlaced (cube "Z" 2 1) (box 0 2 0 2);
     mkPlaced (cube "W" 2 1) (box 5 0 0 2)].
Definition dbShelf : Database :=
  mkDatabase (<["X" := cube "X" 2 1]> ∅) (<["C1" := shelf]> ∅) [].
End Scenario.

(** ** Further vocabulary *)

(** The volume [getOccupiedVolume] counts for a record: that of the
    item's dimensions. *)
Definition recordVolume (r : PlacedItem) : Z :=
  item_width (placed r) * item_depth (placed r) * item_height (placed r).

(** Every record of the container lies within its bounds. *)
Definition AllInBounds (c : Container) : Prop :=
  Forall (fun r => inBounds c (position r)) (items c).

(** The box has a positive extent on each axis. *)
Definition positiveExtent (p : Position) : Prop :=
  width (startCoordinates p) < width (endCoordinates p)
  /\ depth (startCoordinates p) < depth (endCoordinates p)
  /\ height (startCoordinates p) < height (endCoordinates p).

(** What the operations never change in a container. *)
Definition shapeOf (c : Container) : string * string * Z * Z * Z :=
  (containerId c, zone c, cont_width c, cont_depth c, cont_height c).

(** The keys of [containerMap] are the ids of its values. *)
Definition keysAgree (m : list (string * Container)) : Prop :=
  Forall (fun kv => fst kv = containerId (snd kv)) m.

(** Keys never decrease along the list. *)
Fixpoint keySorted {A : Type} (key : A -> Z) (l : list A) : Prop :=
  match l with
  | [] => True
  | a :: l' => Forall (fun b => key a <= key b) l' /\ keySorted key l'
  end.

(** Two placements into one container have boxes that are disjoint along
    an axis, for every two distinct slots of the list. *)
Definition PlacementsDisjoint (l : list Placement) : Prop :=
  forall (i j : nat) (p q : Placement),
    i <> j -> l !! i = Some p -> l !! j = Some q ->
    pl_containerId p = pl_containerId q ->
    disjointAlongAnAxis (pl_position p) (pl_position q).

(** The box has the dimensions of the item. *)
Definition hasDimensions (item : Item) (p : Position) : Prop :=
  width (endCoordinates p) - width (startCoordinates p) = item_width item
  /\ depth (endCoordinates p) - depth (startCoordinates p) = item_depth item
  /\ height (endCoordinates p) - height (startCoordinates p)
     = item_height item.

(** The placement is backed by a record of a container of the store: a
    record of an item of the batch with that id, at that position, within
    the bounds of the container and with the dimensions of the item. *)
Definition placementRecorded (batch : list Item) (store : list Container)
  (pl : Placement) : Prop :=
  exists (i : nat) (c : Container) (r : PlacedItem),
    store !! i = Some c
    /\ containerId c = pl_containerId pl
    /\ In r (items c)
    /\ position r = pl_position pl
    /\ placedId r = pl_itemId pl
    /\ In (placed r) batch
    /\ inBounds c (position r)
    /\ hasDimensions (placed r) (position r).

(** The three steps recorded for one eviction: the occupant [low] leaves
    container [c], the item goes into [c], the occupant goes into [c']. *)
Definition evictionSteps (n : Z) (low item c : string)
  (lowPos newPos : Position) (c' : string) (pos' : Position)
  : list RearrangementStep :=
  [mkRearrangementStep n remove low (Some c) (Some lowPos) None None;
   mkRearrangementStep (n + 1) place item None None (Some c) (Some newPos);
   mkRearrangementStep (n + 2) place low None None (Some c') (Some pos')].

(** A transcript made of evictions, numbered consecutively from [n]; an
    occupant that goes back into the container it left goes back to the
    position it had. *)
Inductive EvictionTranscript : Z -> list RearrangementStep -> Prop :=
| ET_nil (n : Z) : EvictionTranscript n []
| ET_eviction (n : Z) (low item c : string) (lowPos newPos : Position)
    (c' : string) (pos' : Position) (rest : list RearrangementStep) :
    (c' = c -> pos' = lowPos) ->
    EvictionTranscript (n + 3) rest ->
    EvictionTranscript n
      (evictionSteps n low item c lowPos newPos c' pos' ++ rest).

(** The database knows none of the ids. *)
Definition Unknown (d : Database) (ids : list string) : Prop :=
  Forall (fun id => db.getItem d id = None) ids.

(** The database knows no occupant of the store. *)
Definition OccupantsUnknown (d : Database) (store : list Container) : Prop :=
  Forall (fun c => Forall (fun r => db.getItem d (placedId r) = None)
                          (items c)) store.

(** Every container is stored under its own id and every item under its
    own id, as [addContainer] and [addItem] store them. *)
Definition DbKeysOk (d : Database) : Prop :=
  (forall k c, db_containers d !! k = Some c -> containerId c = k)
  /\ (forall k it, db_items d !! k = Some it -> itemId it = k).

(** The containers of the database once the item with id [id] has left
    the container its record names, if it names one that exists. *)
Definition containersAfterLeaving (d : Database) (item : Item) (id : string)
  : gmap string Container :=
  match truthyId (item_containerId item) with
  | Some old =>
      match db_containers d !! old with
      | Some oldContainer =>
          <[old := snd (removeItem oldContainer id)]> (db_containers d)
      | None => db_containers d
      end
  | None => db_containers d
  end.

(** ** Item: usage and expiry (models/item.js)

    The fields of an item that its own methods read and write; the
    engine above does not touch them.  A counter is a JavaScript value:
    [undefined], [null], or a number, taken integral.  A date is a
    [Date] object, valid or not. *)

Inductive Counter := NoCounter | NullCounter | Count (n : Z).

Inductive JsDate := InvalidDate | DateAt (ms : Z).

Record Usage := mkUsage {
  expiryDate : option JsDate;
  usageLimit : Counter;
  remainingUses : Counter
}.

(** The constructor: [remainingUses !== null ? remainingUses : usageLimit],
    where a missing [remainingUses] defaults to [null]. *)
Definition newUsage (expiry : option JsDate) (limit remaining : Counter)
  : Usage :=
  mkUsage expiry limit
    (match remaining with
     | Count n => Count n
     | NoCounter | NullCounter => limit
     end).

(** [a < b] on two dates. *)
Definition dateBefore (a b : JsDate) : bool :=
  match a, b with
  | DateAt x, DateAt y => x <? y
  | _, _ => false
  end.

Definition isExpired (u : Usage) (currentDate : JsDate) : bool :=
  match expiryDate u with
  | None => false
  | Some e => dateBefore e currentDate
  end.

(** [this.remainingUses <= 0]: [null] counts as 0, [undefined] compares
    false. *)
Definition isOutOfUses (u : Usage) : bool :=
  match remainingUses u with
  | Count n => n <=? 0
  | NullCounter => true
  | NoCounter => false
  end.

Definition isWaste (u : Usage) (currentDate : JsDate) : bool :=
  isExpired u currentDate || isOutOfUses u.

Definition getWasteReason (u : Usage) (currentDate : JsDate)
  : option string :=
  if isExpired u currentDate then Some "Expired"%string
  else if isOutOfUses u then Some "Out of Uses"%string
  else None.

(** [use()]: returns the remaining uses and the item after the call. *)
Definition use (u : Usage) : Counter * Usage :=
  match remainingUses u with
  | Count n =>
      if n >? 0
      then (Count (n - 1), mkUsage (expiryDate u) (usageLimit u) (Count (n - 1)))
      else (Count n, u)
  | other => (other, u)
  end.

(** * Properties *)

(** ** Overlap test and [canFitItem] *)

Lemma itemsOverlap_sym (p q : Position) : itemsOverlap p q = itemsOverlap q p.
Proof.
  unfold itemsOverlap. f_equal.
  repeat match goal with
         | |- context [?a <=? ?b] => destruct (Z.leb_spec a b)
         | |- context [?a >=? ?b] => destruct (Z.geb_spec a b)
         end; simpl; try reflexivity; lia.
Qed.

Lemma itemsOverlap_false (p q : Position) :
  itemsOverlap p q = false <-> disjointAlongAnAxis p q.
Proof.
  unfold itemsOverlap, disjointAlongAnAxis.
  rewrite negb_false_iff, !orb_true_iff, !Z.leb_le, !Z.geb_le. tauto.
Qed.

Lemma overlapsNone_Forall (l : list PlacedItem) (pos : Position) :
  overlapsNone l pos = true
  <-> Forall (fun e => itemsOverlap (position e) pos = false) l.
Proof.
  induction l as [|e l IH]; simpl.
  - split; auto.
  - destruct (itemsOverlap (position e) pos) eqn:E.
    + split; [discriminate|]. intros H. inversion H; congruence.
    + rewrite IH. split; [intros; constructor; auto|].
      intros H. inversion H; auto.
Qed.

Lemma outOfBounds_false (c : Container) (pos : Position) :
  outOfBounds c pos = false <-> inBounds c pos.
Proof.
  unfold outOfBounds, inBounds.
  rewrite !orb_false_iff, !Z.ltb_ge, !Z.gtb_ltb, !Z.ltb_ge. tauto.
Qed.

Lemma canFitItem_true (c : Container) (item : Item) (pos : Position) :
  canFitItem c item pos = true
  <-> inBounds c pos
      /\ Forall (fun e => itemsOverlap (position e) pos = false) (items c).
Proof.
  unfold canFitItem. destruct (outOfBounds c pos) eqn:E.
  - split; [discriminate|]. intros [H _].
    apply outOfBounds_false in H. congruence.
  - rewrite overlapsNone_Forall, <- outOfBounds_false. tauto.
Qed.

(** ** The first-fit scan *)

Section FindPositionFacts.
Variables (item : Item) (container : Container).

Local Abbreviation fits x y z :=
  (canFitItem container item (positionAt item x y z)).

Lemma fits_bounds x y z :
  fits x y z = true ->
  0 <= x /\ x + item_width item <= cont_width container
  /\ 0 <= y /\ y + item_depth item <= cont_depth container
  /\ 0 <= z /\ z + item_height item <= cont_height container.
Proof.
  intros H. apply canFitItem_true in H. destruct H as [H _].
  unfold inBounds in H. simpl in H. lia.
Qed.

(** Fuel beyond the number of iterations changes nothing. *)
Lemma scanWidth_fuel fuel x y z :
  (Z.to_nat (cont_width container - item_width item - x + 1) <= fuel)%nat ->
  scanWidth item container fuel x y z
  = scanWidth item container
      (Z.to_nat (cont_width container - item_width item - x + 1)) x y z.
Proof.
  revert x. induction fuel as [|fuel IH]; intros x Hf.
  - replace (Z.to_nat _) with O by lia. reflexivity.
  - simpl. destruct (Z.leb_spec (x + item_width item) (cont_width container))
      as [Hg|Hg].
    + replace (Z.to_nat (cont_width container - item_width item - x + 1))
        with (S (Z.to_nat (cont_width container - item_width item
                           - (x + 1) + 1))) by lia.
      simpl. destruct (Z.leb_spec (x + item_width item)
                                  (cont_width container)); [|lia].
      destruct (fits x y z); [reflexivity|]. apply IH. lia.
    + destruct (Z.to_nat _) eqn:E; simpl; [reflexivity|].
      destruct (Z.leb_spec (x + item_width item) (cont_width container));
        [lia|reflexivity].
Qed.

Lemma scanWidth_Some fuel x y z p :
  scanWidth item container fuel x y z = Some p ->
  exists x', x <= x' /\ p = positionAt item x' y z /\ fits x' y z = true
             /\ forall x'', x <= x'' < x' -> fits x'' y z = false.
Proof.
  revert x. induction fuel as [|fuel IH]; intros x; simpl; [discriminate|].
  destruct (x + item_width item <=? cont_width container); [|discriminate].
  destruct (fits x y z) eqn:E.
  - intros [= <-]. exists x. repeat split; auto; lia.
  - intros H. apply IH in H. destruct H as (x' & Hx & -> & Hf & Hbefore).
    exists x'. repeat split; auto; try lia.
    intros x'' Hx''. destruct (Z.eq_dec x'' x) as [->|]; auto.
    apply Hbefore. lia.
Qed.

Lemma scanWidth_None fuel x y z :
  (Z.to_nat (cont_width container - item_width item - x + 1) <= fuel)%nat ->
  scanWidth item container fuel x y z = None ->
  forall x', x <= x' -> fits x' y z = false.
Proof.
  revert x. induction fuel as [|fuel IH]; intros x Hf; simpl.
  - intros _ x' Hx'. destruct (fits x' y z) eqn:E; auto.
    apply fits_bounds in E. lia.
  - destruct (Z.leb_spec (x + item_width item) (cont_width container))
      as [Hg|Hg].
    + destruct (fits x y z) eqn:E; [discriminate|].
      intros H x' Hx'. destruct (Z.eq_dec x' x) as [->|]; auto.
      apply (IH (x + 1)); auto; lia.
    + intros _ x' Hx'. destruct (fits x' y z) eqn:E; auto.
      apply fits_bounds in E. lia.
Qed.

(** A whole row: no origin of the row fits, whatever its [x]. *)
Lemma row_None y z :
  scanWidth item container (widthFuel item container) 0 y z = None ->
  forall x, fits x y z = false.
Proof.
  intros H x. destruct (fits x y z) eqn:E; auto.
  pose proof (fits_bounds _ _ _ E) as Hb.
  rewrite <- E.
  apply (scanWidth_None (widthFuel item container) 0 y z); auto; try lia.
  unfold widthFuel. lia.
Qed.

Lemma scanDepth_fuel fuel y z :
  (Z.to_nat (cont_depth container - item_depth item - y + 1) <= fuel)%nat ->
  scanDepth item container fuel y z
  = scanDepth item container
      (Z.to_nat (cont_depth container - item_depth item - y + 1)) y z.
Proof.
  revert y. induction fuel as [|fuel IH]; intros y Hf.
  - replace (Z.to_nat _) with O by lia. reflexivity.
  - simpl. destruct (Z.leb_spec (y + item_depth item) (cont_depth container))
      as [Hg|Hg].
    + replace (Z.to_nat (cont_depth container - item_depth item - y + 1))
        with (S (Z.to_nat (cont_depth container - item_depth item
                           - (y + 1) + 1))) by lia.
      simpl. destruct (Z.leb_spec (y + item_depth item)
                                  (cont_depth container)); [|lia].
      destruct (scanWidth _ _ _ 0 y z); [reflexivity|]. apply IH. lia.
    + destruct (Z.to_nat _) eqn:E; simpl; [reflexivity|].
      destruct (Z.leb_spec (y + item_depth item) (cont_depth container));
        [lia|reflexivity].
Qed.

Lemma scanDepth_Some fuel y z p :
  scanDepth item container fuel y z = Some p ->
  exists x' y',
    y <= y' /\ p = positionAt item x' y' z /\ fits x' y' z = true
    /\ (forall x'', x'' < x' -> fits x'' y' z = false)
    /\ (forall x'' y'', y <= y'' < y' -> fits x'' y'' z = false).
Proof.
  revert y. induction fuel as [|fuel IH]; intros y; simpl; [discriminate|].
  destruct (y + item_depth item <=? cont_depth container); [|discriminate].
  destruct (scanWidth item container (widthFuel item container) 0 y z)
    as [q|] eqn:E.
  - intros [= <-]. apply scanWidth_Some in E.
    destruct E as (x' & Hx & -> & Hf & Hbefore).
    exists x', y. repeat split; auto; try lia.
    intros x'' Hx''. destruct (Z.ltb_spec x'' 0) as [Hneg|Hpos].
    + destruct (fits x'' y z) eqn:F; auto. apply fits_bounds in F. lia.
    + apply Hbefore. lia.
  - intros H. apply IH in H.
    destruct H as (x' & y' & Hy & -> & Hf & Hrow & Hbefore).
    exists x', y'. repeat split; auto; try lia.
    intros x'' y'' Hy''. destruct (Z.eq_dec y'' y) as [->|].
    + apply row_None; auto.
    + apply Hbefore. lia.
Qed.

Lemma scanDepth_None fuel y z :
  (Z.to_nat (cont_depth container - item_depth item - y + 1) <= fuel)%nat ->
  scanDepth item container fuel y z = None ->
  forall x' y', y <= y' -> fits x' y' z = false.
Proof.
  revert y. induction fuel as [|fuel IH]; intros y Hf; simpl.
  - intros _ x' y' Hy'. destruct (fits x' y' z) eqn:E; auto.
    apply fits_bounds in E. lia.
  - destruct (Z.leb_spec (y + item_depth item) (cont_depth container))
      as [Hg|Hg].
    + destruct (scanWidth item container (widthFuel item container) 0 y z)
        eqn:E; [discriminate|].
      intros H x' y' Hy'. destruct (Z.eq_dec y' y) as [->|].
      * apply row_None; auto.
      * apply (IH (y + 1)); auto; lia.
    + intros _ x' y' Hy'. destruct (fits x' y' z) eqn:E; auto.
      apply fits_bounds in E. lia.
Qed.

(** A whole layer: no origin of the layer fits. *)
Lemma layer_None z :
  scanDepth item container (depthFuel item container) 0 z = None ->
  forall x y, fits x y z = false.
Proof.
  intros H x y. destruct (fits x y z) eqn:E; auto.
  pose proof (fits_bounds _ _ _ E) as Hb.
  rewrite <- E.
  apply (scanDepth_None (depthFuel item container) 0 z); auto; try lia.
  unfold depthFuel. lia.
Qed.

Lemma scanHeight_fuel fuel z :
  (Z.to_nat (cont_height container - item_height item - z + 1) <= fuel)%nat ->
  scanHeight item container fuel z
  = scanHeight item container
      (Z.to_nat (cont_height container - item_height item - z + 1)) z.
Proof.
  revert z. induction fuel as [|fuel IH]; intros z Hf.
  - replace (Z.to_nat _) with O by lia. reflexivity.
  - simpl.
    destruct (Z.leb_spec (z + item_height item) (cont_height container))
      as [Hg|Hg].
    + replace (Z.to_nat (cont_height container - item_height item - z + 1))
        with (S (Z.to_nat (cont_height container - item_height item
                           - (z + 1) + 1))) by lia.
      simpl. destruct (Z.leb_spec (z + item_height item)
                                  (cont_height container)); [|lia].
      destruct (scanDepth _ _ _ 0 z); [reflexivity|]. apply IH. lia.
    + destruct (Z.to_nat _) eqn:E; simpl; [reflexivity|].
      destruct (Z.leb_spec (z + item_height item) (cont_height container));
        [lia|reflexivity].
Qed.

Lemma scanHeight_Some fuel z p :
  scanHeight item container fuel z = Some p ->
  exists x' y' z',
    z <= z' /\ p = positionAt item x' y' z' /\ fits x' y' z' = true
    /\ (forall x'', x'' < x' -> fits x'' y' z' = false)
    /\ (forall x'' y'', y'' < y' -> fits x'' y'' z' = false)
    /\ (forall x'' y'' z'', z <= z'' < z' -> fits x'' y'' z'' = false).
Proof.
  revert z. induction fuel as [|fuel IH]; intros z; simpl; [discriminate|].
  destruct (z + item_height item <=? cont_height container);
    [|discriminate].
  destruct (scanDepth item container (depthFuel item container) 0 z)
    as [q|] eqn:E.
  - intros [= <-]. apply scanDepth_Some in E.
    destruct E as (x' & y' & Hy & -> & Hf & Hrow & Hbefore).
    exists x', y', z. repeat split; auto; try lia.
    intros x'' y'' Hy''. destruct (Z.ltb_spec y'' 0) as [Hneg|Hpos].
    + destruct (fits x'' y'' z) eqn:F; auto. apply fits_bounds in F. lia.
    + apply Hbefore. lia.
  - intros H. apply IH in H.
    destruct H as (x' & y' & z' & Hz & -> & Hf & Hrow & Hlayer & Hbefore).
    exists x', y', z'. repeat split; auto; try lia.
    intros x'' y'' z'' Hz''. destruct (Z.eq_dec z'' z) as [->|].
    + apply layer_None; auto.
    + apply Hbefore. lia.
Qed.

Lemma scanHeight_None fuel z :
  (Z.to_nat (cont_height container - item_height item - z + 1) <= fuel)%nat ->
  scanHeight item container fuel z = None ->
  forall x' y' z', z <= z' -> fits x' y' z' = false.
Proof.
  revert z. induction fuel as [|fuel IH]; intros z Hf; simpl.
  - intros _ x' y' z' Hz'. destruct (fits x' y' z') eqn:E; auto.
    apply fits_bounds in E. lia.
  - destruct (Z.leb_spec (z + item_height item) (cont_height container))
      as [Hg|Hg].
    + destruct (scanDepth item container (depthFuel item container) 0 z)
        eqn:E; [discriminate|].
      intros H x' y' z' Hz'. destruct (Z.eq_dec z' z) as [->|].
      * apply layer_None; auto.
      * apply (IH (z + 1)); auto; lia.
    + intros _ x' y' z' Hz'. destruct (fits x' y' z') eqn:E; auto.
      apply fits_bounds in E. lia.
Qed.

(** [findPositionInContainer] finds nothing exactly when no integer
    origin fits. *)
Lemma findPosition_None :
  findPositionInContainer item container = None
  <-> forall x y z, fits x y z = false.
Proof.
  unfold findPositionInContainer. split.
  - destruct (_ || _ || _) eqn:G.
    + intros _ x y z. destruct (fits x y z) eqn:E; auto.
      apply fits_bounds in E. rewrite !orb_true_iff, !Z.gtb_ltb, !Z.ltb_lt in G.
      lia.
    + intros H x y z. destruct (fits x y z) eqn:E; auto.
      pose proof (fits_bounds _ _ _ E) as Hb.
      rewrite <- E.
      apply (scanHeight_None (heightFuel item container) 0); auto; try lia.
      unfold heightFuel. lia.
  - intros Hall. destruct (_ || _ || _); auto.
    destruct (scanHeight _ _ _ 0) as [p|] eqn:E; auto.
    apply scanHeight_Some in E.
    destruct E as (x & y & z & _ & _ & Hf & _). rewrite Hall in Hf.
    discriminate.
Qed.

(** What it finds is the first fitting origin of the scan order. *)
Lemma findPosition_Some p :
  findPositionInContainer item container = Some p ->
  exists x y z,
    p = positionAt item x y z /\ fits x y z = true
    /\ forall x' y' z',
         scanBefore (x', y', z') (x, y, z) -> fits x' y' z' = false.
Proof.
  unfold findPositionInContainer.
  destruct (_ || _ || _); [discriminate|]. intros H.
  apply scanHeight_Some in H.
  destruct H as (x & y & z & Hz & -> & Hf & Hrow & Hlayer & Hbefore).
  exists x, y, z. repeat split; auto.
  intros x' y' z' [Hlt|[-> [Hlt|[-> Hlt]]]]; auto.
  destruct (Z.ltb_spec z' 0) as [Hneg|Hpos].
  - destruct (fits x' y' z') eqn:F; auto. apply fits_bounds in F. lia.
  - apply Hbefore. lia.
Qed.
End FindPositionFacts.

Lemma scanBefore_trichotomy (a b : Z * Z * Z) :
  a = b \/ scanBefore a b \/ scanBefore b a.
Proof.
  destruct a as [[x' y'] z'], b as [[x y] z]. unfold scanBefore.
  destruct (Z.lt_trichotomy z' z) as [?|[->|?]]; try tauto.
  destruct (Z.lt_trichotomy y' y) as [?|[->|?]]; try tauto.
  destruct (Z.lt_trichotomy x' x) as [?|[->|?]]; tauto.
Qed.

(** C6. [findPositionInContainer] returns [p] exactly when [p] is the box
    at the first integer origin, in the scan order height outermost, depth
    middle, width innermost, at which [canFitItem] holds; it returns no
    position exactly when [canFitItem] holds at no integer origin, which
    is the case when a dimension of the item exceeds the container's.  In
    a 10 x 10 x 10 container holding one box (0,0,0)-(4,4,4), a 4 x 4 x 4
    item is put at (4,0,0)-(8,4,4). *)
Theorem findPosition_first_fit (item : Item) (container : Container) :
  (forall p,
      findPositionInContainer item container = Some p
      <-> exists x y z,
            p = positionAt item x y z
            /\ canFitItem container item (positionAt item x y z) = true
            /\ forall x' y' z',
                 scanBefore (x', y', z') (x, y, z) ->
                 canFitItem container item (positionAt item x' y' z') = false)
  /\ (findPositionInContainer item container = None
      <-> forall x y z,
            canFitItem container item (positionAt item x y z) = false)
  /\ (item_width item > cont_width container
      \/ item_depth item > cont_depth container
      \/ item_height item > cont_height container ->
      findPositionInContainer item container = None)
  /\ (forall a cid zn id nm pr pz ic ip,
        findPositionInContainer
          (mkItem id nm 4 4 4 pr pz ic ip)
          (mkContainer cid zn 10 10 10
             [mkPlaced a (mkPosition (mkCoordinates 0 0 0)
                                     (mkCoordinates 4 4 4))])
        = Some (mkPosition (mkCoordinates 4 0 0) (mkCoordinates 8 4 4))).
Proof.
  split; [|split; [|split]].
  - intros p. split; [apply findPosition_Some|].
    intros (x & y & z & -> & Hfit & Hfirst).
    destruct (findPositionInContainer item container) as [q|] eqn:E.
    + apply findPosition_Some in E.
      destruct E as (x1 & y1 & z1 & -> & Hfit1 & Hfirst1).
      destruct (scanBefore_trichotomy (x1, y1, z1) (x, y, z))
        as [[= -> -> ->]|[Hlt|Hlt]]; auto.
      * apply Hfirst in Hlt. congruence.
      * apply Hfirst1 in Hlt. congruence.
    + rewrite findPosition_None in E. rewrite E in Hfit. discriminate.
  - apply findPosition_None.
  - intros H. apply findPosition_None. intros x y z.
    destruct (canFitItem _ _ _) eqn:E; auto.
    apply fits_bounds in E. lia.
  - intros. vm_compute. reflexivity.
Qed.

(** An item larger than the container has no position. *)
Lemma findPosition_first_fit_witness :
  findPositionInContainer Scenario.G Scenario.unitC = None.
Proof.
  apply (proj1 (proj2 (proj2
           (findPosition_first_fit Scenario.G Scenario.unitC)))).
  left. vm_compute. reflexivity.
Defined.

(** ** The no-overlap invariant *)

Lemma NoOverlap_app (l : list PlacedItem) (e : PlacedItem) :
  NoOverlap (l ++ [e])
  <-> NoOverlap l
      /\ Forall (fun a => itemsOverlap (position a) (position e) = false) l.
Proof.
  induction l as [|a l IH]; simpl.
  - split; auto.
  - rewrite Forall_app, IH. split.
    + intros [[H1 H2] [H3 H4]]. inversion H2; subst. repeat split; auto.
    + intros [[H1 H2] H3]. inversion H3; subst. repeat split; auto.
Qed.

Lemma removeFirst_spec (id : string) (l : list PlacedItem) :
  match removeFirst id l with
  | (Some r, l') =>
      exists l1 l2, l = l1 ++ r :: l2 /\ l' = l1 ++ l2 /\ placedId r = id
                    /\ Forall (fun a => placedId a <> id) l1
  | (None, l') => l' = l /\ Forall (fun a => placedId a <> id) l
  end.
Proof.
  induction l as [|a l IH]; simpl.
  - split; auto.
  - destruct (String.eqb_spec (placedId a) id) as [Heq|Hne].
    + exists [], l. repeat split; auto.
    + destruct (removeFirst id l) as [[r|] l'].
      * destruct IH as (l1 & l2 & -> & -> & Hid & Hl1).
        exists (a :: l1), l2. repeat split; auto.
      * destruct IH as [-> Hl]. split; auto.
Qed.

Lemma NoOverlap_remove_middle (l1 l2 : list PlacedItem) (r : PlacedItem) :
  NoOverlap (l1 ++ r :: l2) -> NoOverlap (l1 ++ l2).
Proof.
  induction l1 as [|a l1 IH]; simpl.
  - tauto.
  - intros [H1 H2]. split; auto.
    rewrite Forall_app in *. destruct H1 as [H1 H3].
    inversion H3; subst. split; auto.
Qed.

Lemma addItem_NoOverlap (c : Container) (item : Item) (pos : Position) :
  NoOverlap (items c) -> NoOverlap (items (snd (addItem c item pos))).
Proof.
  intros H. unfold addItem. destruct (canFitItem c item pos) eqn:E; auto.
  simpl. apply NoOverlap_app. split; auto.
  apply canFitItem_true in E. apply E.
Qed.

Lemma removeItem_NoOverlap (c : Container) (id : string) :
  NoOverlap (items c) -> NoOverlap (items (snd (removeItem c id))).
Proof.
  intros H. unfold removeItem.
  pose proof (removeFirst_spec id (items c)) as Hs.
  destruct (removeFirst id (items c)) as [[r|] l']; auto.
  destruct Hs as (l1 & l2 & Hl & -> & _). simpl.
  rewrite Hl in H. eapply NoOverlap_remove_middle; eauto.
Qed.

Lemma NoOverlap_pairwise (l : list PlacedItem) :
  NoOverlap l <-> PairwiseDisjoint l.
Proof.
  unfold PairwiseDisjoint. induction l as [|a l IH]; simpl.
  - split; auto. intros _ i j x y _ H. rewrite lookup_nil in H. discriminate.
  - split.
    + intros [Ha Hl] i j x y Hij Hi Hj.
      rewrite Forall_forall in Ha.
      destruct i as [|i], j as [|j]; simpl in *; try congruence.
      * injection Hi as <-. apply itemsOverlap_false, Ha.
        eapply list_elem_of_lookup_2; eauto.
      * injection Hj as <-. apply itemsOverlap_false.
        rewrite itemsOverlap_sym. apply Ha.
        eapply list_elem_of_lookup_2; eauto.
      * apply (proj1 IH Hl i j); auto.
    + intros H. split.
      * apply Forall_forall. intros b Hb.
        apply list_elem_of_lookup in Hb. destruct Hb as [j Hj].
        apply itemsOverlap_false. apply (H O (S j)); auto.
      * apply IH. intros i j x y Hij Hi Hj.
        apply (H (S i) (S j)); auto.
Qed.

Lemma StoreOk_lookup (store : list Container) (i : nat) (c : Container) :
  StoreOk store -> store !! i = Some c -> NoOverlap (items c).
Proof. intros H Hi. eapply (proj1 (Forall_lookup _ _) H); eauto. Qed.

Lemma StoreOk_insert (store : list Container) (i : nat) (c : Container) :
  StoreOk store -> NoOverlap (items c) -> StoreOk (<[i := c]> store).
Proof. intros H Hc. apply Forall_insert; auto. Qed.

Create HintDb overlap.

#[local] Hint Resolve StoreOk_insert addItem_NoOverlap removeItem_NoOverlap
  StoreOk_lookup : overlap.

Lemma rehome_StoreOk low cid others st :
  StoreOk (r_store st) -> StoreOk (r_store (snd (rehome low cid others st))).
Proof.
  induction others as [|j rest IH]; simpl; auto.
  intros H. destruct (r_store st !! j) as [other|] eqn:Ej; auto.
  destruct (String.eqb _ cid); auto.
  destruct (findPositionInContainer _ other); auto.
  simpl. eauto with overlap.
Qed.

Lemma evictLoop_StoreOk item i sorted lows st :
  StoreOk (r_store st) -> StoreOk (r_store (evictLoop item i sorted lows st)).
Proof.
  revert st. induction lows as [|low rest IH]; simpl; auto.
  intros st H. destruct (r_store st !! i) as [c0|] eqn:Ei; auto.
  assert (NoOverlap (items (snd (removeItem c0 (placedId low))))) as H1
      by eauto with overlap.
  destruct (findPositionInContainer item _) as [newPosition|].
  - match goal with
    | |- context [rehome ?l ?c ?s ?t] =>
        pose proof (rehome_StoreOk l c s t) as Hr;
        destruct (rehome l c s t) as [newHome st3]
    end.
    simpl in Hr. specialize (Hr ltac:(eauto with overlap)).
    destruct newHome; auto.
    destruct (r_store st3 !! i) eqn:E3; auto.
    simpl. eauto with overlap.
  - apply IH. simpl. eauto with overlap.
Qed.

Lemma containerLoop_StoreOk d item sorted todo st :
  StoreOk (r_store st) ->
  StoreOk (r_store (containerLoop d item sorted todo st)).
Proof.
  revert st. induction todo as [|i rest IH]; simpl; auto.
  intros st H. destruct (r_store st !! i) as [c|] eqn:Ei; auto.
  destruct (findPositionInContainer item c).
  - simpl. eauto with overlap.
  - apply IH. apply evictLoop_StoreOk; auto.
Qed.

Lemma rearrangeRun_StoreOk d unplaced store :
  StoreOk store -> StoreOk (r_store (rearrangeRun d unplaced store)).
Proof.
  unfold rearrangeRun.
  assert (forall st, StoreOk (r_store st) ->
                     StoreOk (r_store (fold_left (rearrangeItem d) unplaced st)))
    as Hgen.
  { induction unplaced as [|item rest IH]; simpl; auto.
    intros st H. apply IH. unfold rearrangeItem.
    apply containerLoop_StoreOk; auto. }
  intros H. apply Hgen. auto.
Qed.

Lemma placeFirstFit_StoreOk item candidates store pl store' :
  StoreOk store ->
  placeFirstFit item candidates store = Some (pl, store') ->
  StoreOk store'.
Proof.
  intros H. induction candidates as [|i rest IH]; simpl; [discriminate|].
  destruct (store !! i) as [c|] eqn:Ei; auto.
  destruct (findPositionInContainer item c); auto.
  intros [= <- <-]. eauto with overlap.
Qed.

Lemma placeOne_StoreOk st item :
  StoreOk (p_store st) -> StoreOk (p_store (placeOne st item)).
Proof.
  intros H. unfold placeOne.
  repeat match goal with
         | |- context [match placeFirstFit ?i ?c ?s with _ => _ end] =>
             let E := fresh "E" in
             destruct (placeFirstFit i c s) as [[? ?]|] eqn:E; simpl;
             [exact (placeFirstFit_StoreOk _ _ _ _ _ H E)|]
         end.
  exact H.
Qed.

Lemma mapSet_empty_items k c m :
  Forall (fun kv => items (snd kv) = []) m ->
  Forall (fun kv => items (snd kv) = []) (mapSet k (with_items c []) m).
Proof.
  induction m as [|[k' v'] m IH]; simpl; intros H.
  - repeat constructor.
  - inversion H; subst. destruct (String.eqb k' k); constructor; auto.
Qed.

Lemma buildContainerMap_empty containers :
  Forall (fun c => items c = []) (mapValues (buildContainerMap containers)).
Proof.
  unfold mapValues, buildContainerMap. apply Forall_map.
  assert (forall m, Forall (fun kv => items (snd kv) = []) m ->
                    Forall (fun kv => items (snd kv) = [])
                      (fold_left
                         (fun m c => mapSet (containerId c) (with_items c []) m)
                         containers m)) as Hgen.
  { induction containers as [|c cs IH]; simpl; auto.
    intros m H. apply IH. apply mapSet_empty_items; auto. }
  apply Hgen. constructor.
Qed.

Lemma firstPass_StoreOk its containers :
  StoreOk (p_store (firstPass its containers)).
Proof.
  unfold firstPass.
  assert (forall l st, StoreOk (p_store st) ->
                       StoreOk (p_store (fold_left placeOne l st))) as Hgen.
  { induction l as [|x l IH]; simpl; auto.
    intros st H. apply IH. apply placeOne_StoreOk; auto. }
  apply Hgen. simpl.
  eapply Forall_impl; [apply buildContainerMap_empty|].
  simpl. intros c ->. exact I.
Qed.

Lemma findOptimalPlacementRun_StoreOk d its containers :
  StoreOk (snd (findOptimalPlacementRun d its containers)).
Proof.
  unfold findOptimalPlacementRun. simpl.
  destruct (0 <? length (p_unplaced (firstPass its containers)))%nat.
  - apply rearrangeRun_StoreOk, firstPass_StoreOk.
  - simpl. apply firstPass_StoreOk.
Qed.

Lemma applyOps_NoOverlap (c : Container) (ops : list ContainerOp) :
  NoOverlap (items c) -> NoOverlap (items (applyOps c ops)).
Proof.
  unfold applyOps. revert c. induction ops as [|op ops IH]; simpl; auto.
  intros c H. apply IH. destruct op; simpl; auto with overlap.
Qed.

Lemma DbOk_getContainer d k c :
  DbOk d -> db.getContainer d k = Some c -> NoOverlap (items c).
Proof. intros H Hk. exact (H k c Hk). Qed.

Lemma DbOk_mutateContainer d k c :
  DbOk d -> NoOverlap (items c) -> DbOk (db.mutateContainer d k c).
Proof. intros H Hc. apply map_Forall_insert_2; auto. Qed.

Lemma DbOk_updateContainer d c :
  DbOk d -> NoOverlap (items c) -> DbOk (db.updateContainer d c).
Proof. intros H Hc. apply map_Forall_insert_2; auto. Qed.

#[local] Hint Resolve DbOk_getContainer DbOk_mutateContainer
  DbOk_updateContainer : overlap.

Lemma placeItem_DbOk d id userId timestamp cid pos :
  DbOk d -> DbOk (snd (placeItem d id userId timestamp cid pos)).
Proof.
  intros H. unfold placeItem.
  destruct (db.getItem d id) as [item|]; auto.
  destruct (db.getContainer d cid) as [container|] eqn:Ec; auto.
  destruct (canFitItem container item pos); simpl; auto.
  set (d1 := match truthyId (item_containerId item) with
             | Some old => _
             | None => d
             end).
  assert (DbOk d1) as H1.
  { subst d1. destruct (truthyId _) as [old|]; auto.
    destruct (db.getContainer d old) eqn:Eo; auto.
    apply DbOk_updateContainer; [apply DbOk_mutateContainer|];
      eauto with overlap. }
  clearbody d1.
  set (d2 := db.updateItem _ _).
  assert (DbOk d2) as H2 by exact H1.
  clearbody d2.
  destruct (db.getContainer d2 cid) eqn:E2; unfold DbOk; simpl;
    fold (DbOk d2); repeat apply map_Forall_insert_2; eauto with overlap.
Qed.

(** C7. [addItem] inserts a record exactly when [canFitItem] holds, which
    means that the box is within the bounds of the container and disjoint
    along an axis from every record; hence the boxes of the records at
    two distinct slots of a container stay disjoint along an axis under
    any sequence of [addItem] and [removeItem], under a rearrangement
    pass, in the working containers of a batch placement and under
    [placeItem]. *)
Theorem no_overlap_invariant :
  (forall c item pos,
      (canFitItem c item pos = true
       <-> inBounds c pos
           /\ Forall (fun e => disjointAlongAnAxis (position e) pos) (items c))
      /\ fst (addItem c item pos) = canFitItem c item pos
      /\ items (snd (addItem c item pos))
         = if canFitItem c item pos
           then items c ++ [mkPlaced item pos] else items c)
  /\ (forall c ops,
        PairwiseDisjoint (items c) ->
        PairwiseDisjoint (items (applyOps c ops)))
  /\ (forall d unplacedItems store,
        Forall (fun c => PairwiseDisjoint (items c)) store ->
        Forall (fun c => PairwiseDisjoint (items c))
               (r_store (rearrangeRun d unplacedItems store)))
  /\ (forall d its containers,
        Forall (fun c => PairwiseDisjoint (items c))
               (snd (findOptimalPlacementRun d its containers)))
  /\ (forall d id userId timestamp cid pos,
        map_Forall (fun _ c => PairwiseDisjoint (items c)) (db_containers d) ->
        map_Forall (fun _ c => PairwiseDisjoint (items c))
                   (db_containers
                      (snd (placeItem d id userId timestamp cid pos)))).
Proof.
  assert (forall store,
             Forall (fun c => PairwiseDisjoint (items c)) store
             <-> StoreOk store) as Hstore.
  { intros store. unfold StoreOk. rewrite !Forall_forall.
    split; intros H c Hc; apply NoOverlap_pairwise, H, Hc. }
  split; [|split; [|split; [|split]]].
  - intros c item pos. split; [|split].
    + rewrite canFitItem_true.
      split; intros [Hb Hd]; (split; [exact Hb|]);
        (eapply Forall_impl; [exact Hd|]); intros e; apply itemsOverlap_false.
    + unfold addItem. destruct (canFitItem c item pos); reflexivity.
    + unfold addItem. destruct (canFitItem c item pos); reflexivity.
  - intros c ops H. apply NoOverlap_pairwise, applyOps_NoOverlap.
    apply NoOverlap_pairwise, H.
  - intros d unplacedItems store H. apply Hstore, rearrangeRun_StoreOk.
    apply Hstore, H.
  - intros d its containers. apply Hstore, findOptimalPlacementRun_StoreOk.
  - intros d id userId timestamp cid pos H.
    assert (DbOk d) as Hd.
    { intros k c Hk. apply NoOverlap_pairwise. exact (H k c Hk). }
    pose proof (placeItem_DbOk d id userId timestamp cid pos Hd) as Hd'.
    intros k c Hk. apply NoOverlap_pairwise. exact (Hd' k c Hk).
Qed.

(** A refused and an accepted [addItem] followed by a [removeItem] on
    [C1], the pass over [CA], [CB] and [CD], and a [placeItem] on the
    shelf. *)
Lemma no_overlap_invariant_witness :
  PairwiseDisjoint
    (items (applyOps Scenario.C1withA
              [OpAdd Scenario.B (Scenario.box 2 2 2 4);
               OpAdd Scenario.B (Scenario.box 4 0 0 4);
               OpRemove "A"]))
  /\ Forall (fun c => PairwiseDisjoint (items c))
            (r_store (rearrangeRun Scenario.dbWithL1L2 [Scenario.H2]
                        [Scenario.CA; Scenario.CB; Scenario.CD]))
  /\ map_Forall (fun _ c => PairwiseDisjoint (items c))
                (db_containers
                   (snd (placeItem Scenario.dbShelf "X" "u" None "C1"
                                   (Scenario.box 5 5 5 2)))).
Proof.
  split; [|split].
  - apply (proj1 (proj2 no_overlap_invariant)).
    apply NoOverlap_pairwise. simpl. repeat constructor.
  - apply (proj1 (proj2 (proj2 no_overlap_invariant))).
    repeat (apply Forall_cons_2;
            [apply NoOverlap_pairwise; simpl; repeat constructor|]).
    apply Forall_nil_2.
  - apply (proj2 (proj2 (proj2 (proj2 no_overlap_invariant)))).
    apply map_Forall_insert_2; [|apply map_Forall_empty].
    apply NoOverlap_pairwise. simpl. repeat constructor.
Defined.

(** ** Blocking items *)

Lemma blocks_Blocking (id : string) (target it : PlacedItem) :
  blocks id target it = true <-> Blocking id target it.
Proof.
  unfold blocks, Blocking, intervalsOverlap.
  destruct (String.eqb_spec (placedId it) id) as [Heq|Hne].
  - split; [discriminate|]. intros [Hn _]. contradiction.
  - rewrite andb_true_iff, negb_true_iff, !orb_false_iff, Z.ltb_lt,
      !Z.leb_gt, !Z.geb_leb, !Z.leb_gt.
    tauto.
Qed.

Lemma filter_blocks (id : string) (target : PlacedItem) (l : list PlacedItem) :
  List.filter (blocks id target) l = filter (Blocking id target) l.
Proof.
  induction l as [|a l IH]; [reflexivity|].
  simpl. rewrite filter_cons, IH.
  destruct (blocks id target a) eqn:E.
  - apply blocks_Blocking in E. rewrite decide_True; auto.
  - rewrite decide_False; auto. intros Hb. apply blocks_Blocking in Hb.
    congruence.
Qed.

Lemma findItem_None (c : Container) (id : string) :
  findItem c id = None <-> forall it, In it (items c) -> placedId it <> id.
Proof.
  unfold findItem. split.
  - intros H it Hin Heq.
    apply (List.find_none _ _ H) in Hin. simpl in Hin.
    apply String.eqb_neq in Hin. contradiction.
  - intros H. destruct (List.find _ (items c)) as [t|] eqn:E; auto.
    apply List.find_some in E. destruct E as [Hin Heq].
    apply String.eqb_eq in Heq. apply H in Hin. contradiction.
Qed.

(** C8. For a target id with a record in the container, where the target
    is the first such record, [getItemsToMove] returns the records of the
    container that have another id, start at a strictly lower depth
    coordinate than the target and overlap its projections on the width
    and height axes: exactly those, each as often as it occurs and in the
    order of the container's list, which is insertion order.  For an id
    without a record it returns the empty list. *)
Theorem getItemsToMove_spec (c : Container) (id : string) :
  (forall target,
      findItem c id = Some target ->
      In target (items c) /\ placedId target = id
      /\ getItemsToMove c id = filter (Blocking id target) (items c)
      /\ (forall it,
             In it (getItemsToMove c id)
             <-> In it (items c) /\ Blocking id target it)
      /\ sublist (getItemsToMove c id) (items c))
  /\ ((forall it, In it (items c) -> placedId it <> id) ->
      getItemsToMove c id = []).
Proof.
  split.
  - intros target Hfind. unfold getItemsToMove. rewrite Hfind.
    pose proof Hfind as Hf. unfold findItem in Hf.
    apply List.find_some in Hf. destruct Hf as [Hin Heq].
    apply String.eqb_eq in Heq.
    split; [exact Hin|]. split; [exact Heq|]. split; [apply filter_blocks|].
    split.
    + intros it. rewrite List.filter_In, blocks_Blocking. reflexivity.
    + rewrite filter_blocks. apply sublist_filter.
  - intros H. apply findItem_None in H. unfold getItemsToMove.
    rewrite H. reflexivity.
Qed.

(** The first record of a target among its own blockers' container. *)
Lemma getItemsToMove_spec_witness :
  findItem Scenario.shelf "X"
  = Some (mkPlaced (Scenario.cube "X" 2 1) (Scenario.box 0 4 0 2))
  /\ map placedId (getItemsToMove Scenario.shelf "X") = ["Y"; "Z"]%string
  /\ sublist (getItemsToMove Scenario.shelf "X") (items Scenario.shelf)
  /\ getItemsToMove Scenario.shelf "Q" = [].
Proof.
  split; [reflexivity|]. split; [reflexivity|]. split.
  - apply (proj1 (getItemsToMove_spec Scenario.shelf "X")
             (mkPlaced (Scenario.cube "X" 2 1) (Scenario.box 0 4 0 2))).
    reflexivity.
  - apply (proj2 (getItemsToMove_spec Scenario.shelf "Q")).
    intros it Hin. simpl in Hin.
    destruct Hin as [<-|[<-|[<-|[<-|[]]]]]; vm_compute; discriminate.
Defined.

(** ** Item ids within a container *)

(** C9, as stated, fails: [addItem] with an id that is already placed in
    the container, at a position that does not overlap, succeeds and
    leaves two records with that id. *)
Lemma addItem_duplicates_id :
  NoDup (map placedId (items Scenario.C1withA))
  /\ fst (addItem Scenario.C1withA Scenario.A (Scenario.box 4 0 0 4)) = true
  /\ map placedId
       (items (snd (addItem Scenario.C1withA Scenario.A
                            (Scenario.box 4 0 0 4))))
     = ["A"; "A"]%string
  /\ ~ NoDup (map placedId
                (items (snd (addItem Scenario.C1withA Scenario.A
                                     (Scenario.box 4 0 0 4))))).
Proof.
  split; [|split; [|split]].
  - vm_compute. apply NoDup_cons. split; [apply not_elem_of_nil|].
    apply NoDup_nil_2.
  - reflexivity.
  - reflexivity.
  - vm_compute. intros Hn. apply NoDup_cons in Hn. destruct Hn as [Hn _].
    apply Hn. apply list_elem_of_here.
Qed.

(** C9, amended. [addItem] inserts a record, at the end of the list,
    exactly when [canFitItem] holds, and otherwise leaves the container as
    it is; it does not look at item ids.  Ids stay unique when the id of
    the added item is not yet in the container (for instance after a
    [removeItem] of the only record with that id); a successful [addItem]
    of an id that is in the container leaves two records with it. *)
Theorem addItem_ids (c : Container) (item : Item) (pos : Position) :
  (canFitItem c item pos = true ->
   addItem c item pos
   = (true, with_items c (items c ++ [mkPlaced item pos])))
  /\ (canFitItem c item pos = false -> addItem c item pos = (false, c))
  /\ (NoDup (map placedId (items c)) ->
      ~ In (itemId item) (map placedId (items c)) ->
      NoDup (map placedId (items (snd (addItem c item pos)))))
  /\ (NoDup (map placedId (items c)) ->
      NoDup (map placedId (items (snd (removeItem c (itemId item)))))
      /\ ~ In (itemId item)
              (map placedId (items (snd (removeItem c (itemId item))))))
  /\ (canFitItem c item pos = true ->
      In (itemId item) (map placedId (items c)) ->
      ~ NoDup (map placedId (items (snd (addItem c item pos))))).
Proof.
  unfold addItem. split; [|split; [|split; [|split]]].
  - intros ->. reflexivity.
  - intros ->. reflexivity.
  - intros Hnd Hnew. destruct (canFitItem c item pos); auto. simpl.
    rewrite map_app. simpl. apply NoDup_app. split; [exact Hnd|]. split.
    + intros x Hx Hx'. apply list_elem_of_singleton in Hx'. subst x.
      apply Hnew, list_elem_of_In, Hx.
    + apply NoDup_singleton.
  - intros Hnd. unfold removeItem.
    pose proof (removeFirst_spec (itemId item) (items c)) as Hs.
    destruct (removeFirst (itemId item) (items c)) as [[r|] l'].
    + destruct Hs as (l1 & l2 & Hl & -> & Hid & Hl1). simpl.
      rewrite Hl, map_app in Hnd. simpl in Hnd.
      apply NoDup_app in Hnd. destruct Hnd as (Hn1 & Hdisj & Hn2).
      apply NoDup_cons in Hn2. destruct Hn2 as [Hr Hn2].
      split.
      * rewrite map_app. apply NoDup_app. repeat split; auto.
        intros x Hx Hx'. apply (Hdisj x Hx). apply list_elem_of_further, Hx'.
      * rewrite map_app, in_app_iff. intros [Hin|Hin].
        -- apply in_map_iff in Hin. destruct Hin as (a & Ha & Hin).
           rewrite Forall_forall in Hl1.
           apply list_elem_of_In, Hl1 in Hin. contradiction.
        -- apply Hr. rewrite Hid. apply list_elem_of_In, Hin.
    + destruct Hs as [-> Hall]. split; auto.
      intros Hin. apply in_map_iff in Hin. destruct Hin as (a & Ha & Hin).
      rewrite Forall_forall in Hall.
      apply list_elem_of_In, Hall in Hin. contradiction.
  - intros -> Hin. simpl. rewrite map_app. simpl. intros Hnd.
    apply NoDup_app in Hnd. destruct Hnd as (_ & Hdisj & _).
    apply (Hdisj (itemId item)).
    + apply list_elem_of_In, Hin.
    + apply list_elem_of_here.
Qed.

(** [B] goes next to [A]; a second [A] next to the first is accepted. *)
Lemma addItem_ids_witness :
  NoDup (map placedId
           (items (snd (addItem Scenario.C1withA Scenario.B
                                (Scenario.box 4 0 0 4)))))
  /\ ~ NoDup (map placedId
                (items (snd (addItem Scenario.C1withA Scenario.A
                                     (Scenario.box 4 0 0 4))))).
Proof.
  split.
  - apply (proj1 (proj2 (proj2 (addItem_ids Scenario.C1withA Scenario.B
                                            (Scenario.box 4 0 0 4))))).
    + vm_compute. apply NoDup_cons. split; [apply not_elem_of_nil|].
      apply NoDup_nil_2.
    + vm_compute. intros [Heq|[]]. discriminate.
  - apply (proj2 (proj2 (proj2 (proj2
             (addItem_ids Scenario.C1withA Scenario.A
                          (Scenario.box 4 0 0 4)))))).
    + reflexivity.
    + vm_compute. left. reflexivity.
Defined.

(** ** Retrieval steps *)

Lemma numberFrom_app (n : Z) (l1 l2 : list (Action * string * string)) :
  numberFrom n (l1 ++ l2)
  = numberFrom n l1 ++ numberFrom (n + Z.of_nat (length l1)) l2.
Proof.
  revert n. induction l1 as [|[[a i] nm] l1 IH]; intros n; simpl.
  - f_equal. lia.
  - rewrite IH. do 3 f_equal. lia.
Qed.

Lemma removeSteps_spec (l : list PlacedItem) (n : Z) :
  removeSteps l n
  = (numberFrom n
       (flat_map
          (fun b => [(remove, placedId b, name (placed b));
                     (setAside, placedId b, name (placed b))]) l),
     n + 2 * Z.of_nat (length l)).
Proof.
  revert n. induction l as [|b l IH]; intros n; simpl.
  - f_equal. lia.
  - rewrite IH. simpl. f_equal.
    + do 2 f_equal. f_equal. lia.
    + lia.
Qed.

Lemma placeBackSteps_spec (l : list PlacedItem) (k : nat) (n : Z) :
  (k <= length l)%nat ->
  placeBackSteps l k n
  = numberFrom n
      (map (fun b => (placeBack, placedId b, name (placed b)))
           (rev (take k l))).
Proof.
  revert n. induction k as [|k IH]; intros n Hk; simpl.
  - reflexivity.
  - destruct (lookup_lt_is_Some_2 l k ltac:(lia)) as [b Hb].
    rewrite Hb. erewrite take_S_r by eauto.
    rewrite rev_app_distr. simpl. f_equal. apply IH. lia.
Qed.

Lemma calculateRetrievalSteps_transcript d id c target :
  db.getItem d id = Some target ->
  calculateRetrievalSteps d id c
  = Some (numberFrom 1
            (stackTranscript (getItemsToMove c id) id (name target))).
Proof.
  intros Hget. unfold calculateRetrievalSteps, stackTranscript.
  rewrite Hget. generalize (getItemsToMove c id). intros l.
  assert (forall l' : list PlacedItem,
             length
               (flat_map
                  (fun b => [(remove, placedId b, name (placed b));
                             (setAside, placedId b, name (placed b))]) l')
             = (2 * length l')%nat) as Hlen.
  { induction l' as [|x l' IH]; simpl; auto. rewrite IH. lia. }
  destruct (Nat.eqb_spec (length l) 0) as [Hz|Hnz].
  - destruct l; [reflexivity|discriminate].
  - rewrite removeSteps_spec.
    rewrite placeBackSteps_spec by apply Nat.le_refl.
    rewrite firstn_all, !numberFrom_app, Hlen. simpl.
    repeat f_equal; lia.
Qed.

Lemma countAction_numberFrom (a : Action) (n : Z)
  (l : list (Action * string * string)) :
  countAction a (numberFrom n l)
  = length (List.filter (fun t => Action_eqb (fst (fst t)) a) l).
Proof.
  unfold countAction. revert n.
  induction l as [|[[a' i] nm] l IH]; intros n; simpl; auto.
  destruct (Action_eqb a' a); simpl; rewrite IH; reflexivity.
Qed.

Lemma count_stackTranscript (blocking : list PlacedItem) (id nm : string) :
  let count a :=
    length (List.filter (fun t : Action * string * string =>
                           Action_eqb (fst (fst t)) a)
                        (stackTranscript blocking id nm)) in
  count remove = length blocking /\ count setAside = length blocking
  /\ count retrieve = 1%nat /\ count placeBack = length blocking.
Proof.
  unfold stackTranscript. simpl.
  rewrite !List.filter_app, !length_app. simpl.
  assert (forall a (l : list PlacedItem),
             length
               (List.filter
                  (fun t : Action * string * string =>
                     Action_eqb (fst (fst t)) a)
                  (flat_map
                     (fun b => [(remove, placedId b, name (placed b));
                                (setAside, placedId b, name (placed b))]) l))
             = match a with
               | remove | setAside => length l
               | _ => O
               end) as Hfm.
  { intros a l. induction l as [|x l IH]; simpl.
    - destruct a; reflexivity.
    - destruct a; simpl; rewrite IH; reflexivity. }
  assert (forall a (l : list PlacedItem),
             length
               (List.filter
                  (fun t : Action * string * string =>
                     Action_eqb (fst (fst t)) a)
                  (map (fun b => (placeBack, placedId b, name (placed b))) l))
             = match a with
               | placeBack => length l
               | _ => O
               end) as Hpb.
  { intros a l. induction l as [|x l IH]; simpl.
    - destruct a; reflexivity.
    - destruct a; simpl; rewrite IH; reflexivity. }
  rewrite !Hfm, !Hpb, length_rev. lia.
Qed.

(** C5. When the database knows the target item, the step list of
    [calculateRetrievalSteps], in both services, is the transcript with
    stack discipline numbered from 1: for each blocking item in the order
    of [getItemsToMove] a [remove] and a [setAside] step, then the
    [retrieve] step of the target, then a [placeBack] step per blocking
    item in the reverse order; with no blocking item it is the single
    [retrieve] step.  It has as many [placeBack] as [remove] steps, one
    per blocking item.  The computation only reads the container (through
    [getItemsToMove]), so it is a function of the container's value and
    returns no new container state. *)
Theorem retrieval_stack_discipline (d : Database) (id : string)
  (c : Container) (target : Item) :
  db.getItem d id = Some target ->
  calculateRetrievalSteps d id c
  = Some (numberFrom 1
            (stackTranscript (getItemsToMove c id) id (name target)))
  /\ WasteService.calculateRetrievalSteps d id c
     = calculateRetrievalSteps d id c
  /\ (getItemsToMove c id = [] ->
      calculateRetrievalSteps d id c
      = Some [mkRetrievalStep 1 retrieve id (name target)])
  /\ (forall steps,
         calculateRetrievalSteps d id c = Some steps ->
         countAction remove steps = length (getItemsToMove c id)
         /\ countAction placeBack steps = countAction remove steps
         /\ countAction retrieve steps = 1%nat
         /\ length steps = (3 * length (getItemsToMove c id) + 1)%nat).
Proof.
  intros Hget.
  pose proof (calculateRetrievalSteps_transcript d id c target Hget) as Ht.
  split; [exact Ht|]. split; [reflexivity|]. split.
  - intros Hnil. rewrite Ht, Hnil. reflexivity.
  - intros steps Hsteps. rewrite Ht in Hsteps. injection Hsteps as <-.
    rewrite !countAction_numberFrom.
    destruct (count_stackTranscript (getItemsToMove c id) id (name target))
      as (Hr & _ & Hg & Hp).
    rewrite Hr, Hp, Hg. repeat split; auto.
    assert (forall n l, length (numberFrom n l) = length l) as Hlen.
    { intros n l. revert n.
      induction l as [|[[a i] nm] l IH]; intros n; simpl; auto. }
    rewrite Hlen. unfold stackTranscript.
    rewrite !length_app, length_map, length_rev. simpl.
    assert (forall l' : list PlacedItem,
               length
                 (flat_map
                    (fun b => [(remove, placedId b, name (placed b));
                               (setAside, placedId b, name (placed b))]) l')
               = (2 * length l')%nat) as Hfl.
    { induction l' as [|x l' IH]; simpl; auto. rewrite IH. lia. }
    rewrite Hfl. lia.
Qed.

(** [X] behind [Y] and [Z]: remove Y, set Y aside, remove Z, set Z aside,
    retrieve X, place back Z, place back Y. *)
Lemma retrieval_stack_discipline_witness :
  calculateRetrievalSteps Scenario.dbShelf "X" Scenario.shelf
  = Some (numberFrom 1
            [(remove, "Y", "Y"); (setAside, "Y", "Y"); (remove, "Z", "Z");
             (setAside, "Z", "Z"); (retrieve, "X", "X");
             (placeBack, "Z", "Z"); (placeBack, "Y", "Y")]%string).
Proof.
  apply (proj1 (retrieval_stack_discipline Scenario.dbShelf "X"
                  Scenario.shelf (Scenario.cube "X" 2 1) eq_refl)).
Defined.

(** Without the target in the database the lookup of its name fails. *)
Lemma calculateRetrievalSteps_unknown d id c :
  db.getItem d id = None -> calculateRetrievalSteps d id c = None.
Proof.
  intros H. unfold calculateRetrievalSteps. rewrite H.
  destruct (length _ =? 0)%nat; auto.
  destruct (removeSteps _ 1); reflexivity.
Qed.

(** ** Manual placement *)

(** C10. [placeItem] returns failure and leaves the database as it is,
    with every item and every container record unchanged, when the item
    id is not in the database, when the container id is not in the
    database, or when [canFitItem] fails at the requested position. *)
Theorem placeItem_failure_unchanged (d : Database) (id userId : string)
  (timestamp : option string) (cid : string) (pos : Position) :
  db.getItem d id = None
  \/ db.getContainer d cid = None
  \/ (exists item container,
         db.getItem d id = Some item
         /\ db.getContainer d cid = Some container
         /\ canFitItem container item pos = false) ->
  placeItem d id userId timestamp cid pos = (false, d).
Proof.
  unfold placeItem.
  intros [Hi|[Hc|(item & container & Hi & Hc & Hfit)]].
  - rewrite Hi. reflexivity.
  - rewrite Hc. destruct (db.getItem d id); reflexivity.
  - rewrite Hi, Hc, Hfit. reflexivity.
Qed.

(** In the shelf scenario: an unknown item, an unknown container, and a
    position on top of [Y]. *)
Lemma placeItem_failure_unchanged_witness :
  placeItem Scenario.dbShelf "Q" "u" None "C1" (Scenario.box 0 0 0 2)
  = (false, Scenario.dbShelf)
  /\ placeItem Scenario.dbShelf "X" "u" None "C9" (Scenario.box 0 0 0 2)
     = (false, Scenario.dbShelf)
  /\ placeItem Scenario.dbShelf "X" "u" None "C1" (Scenario.box 0 0 0 2)
     = (false, Scenario.dbShelf).
Proof.
  split; [|split]; apply placeItem_failure_unchanged.
  - left. reflexivity.
  - right. left. reflexivity.
  - right. right.
    exists (Scenario.cube "X" 2 1), Scenario.shelf.
    split; [reflexivity|]. split; reflexivity.
Defined.

(** ** Rearrangement: what happens to an evicted occupant *)

(** When the item fits only after the eviction of [low], its new box
    overlaps the box [low] had, so that the final [addItem] that is meant
    to put [low] back is refused. *)
Lemma put_back_refused (item : Item) (c c1 : Container) (low : PlacedItem)
  (newPosition : Position) :
  findPositionInContainer item c = None ->
  removeItem c (placedId low) = (Some low, c1) ->
  findPositionInContainer item c1 = Some newPosition ->
  addItem (snd (addItem c1 item newPosition)) (placed low) (position low)
  = (false, snd (addItem c1 item newPosition)).
Proof.
  intros Hnone Hrem Hsome.
  apply findPosition_Some in Hsome.
  destruct Hsome as (x & y & z & -> & Hfit & _).
  rewrite findPosition_None in Hnone. specialize (Hnone x y z).
  unfold removeItem in Hrem.
  pose proof (removeFirst_spec (placedId low) (items c)) as Hs.
  destruct (removeFirst (placedId low) (items c)) as [[r|] l'];
    [|discriminate].
  destruct Hs as (l1 & l2 & Hl & -> & _). injection Hrem as -> <-.
  assert (itemsOverlap (position low) (positionAt item x y z) = true) as Hov.
  { destruct (itemsOverlap (position low) (positionAt item x y z)) eqn:E;
      auto.
    apply canFitItem_true in Hfit. destruct Hfit as [Hb Hall]. simpl in Hall.
    assert (canFitItem c item (positionAt item x y z) = true) as Hc.
    { apply canFitItem_true. split; [exact Hb|].
      rewrite Hl. rewrite Forall_app in *. destruct Hall as [H1 H2].
      split; auto. }
    congruence. }
  unfold addItem at 2 3. rewrite Hfit. simpl.
  unfold addItem.
  replace (canFitItem _ (placed low) (position low)) with false; auto.
  symmetry. apply not_true_is_false. intros Hc.
  apply canFitItem_true in Hc. destruct Hc as [_ Hall]. simpl in Hall.
  rewrite Forall_app in Hall. destruct Hall as [_ Hall].
  inversion Hall as [|? ? Hlast _]; subst. simpl in Hlast.
  rewrite itemsOverlap_sym in Hlast. congruence.
Qed.

(** C1 at a failing input: one unit container is full with [L], known to
    the database with priority 1, and [H] of priority 9 is to be placed.
    The pass evicts [L], places [H], finds no other container, records a
    [place] step that puts [L] back into its container, but the container
    refuses [L]: at the end [L] is in no container.  The batch placement
    reaches the same state from an empty container: for the batch [X],
    [H], where the database knows [X] with priority 1, [X] is placed,
    evicted for [H] and lost, and the returned placements give both the
    same box. *)
Theorem rearrange_loses_evicted_item :
  occurrences "L" [Scenario.unitWithL] = 1%nat
  /\ map (fun s => (ra_step s, ra_action s, ra_itemId s, toContainer s))
         (r_rearrangements
            (rearrangeRun Scenario.dbWithL [Scenario.H] [Scenario.unitWithL]))
     = [(1, remove, "L", None); (2, place, "H", Some "C1");
        (3, place, "L", Some "C1")]%string
  /\ placedIds
       (r_store
          (rearrangeRun Scenario.dbWithL [Scenario.H] [Scenario.unitWithL]))
     = ["H"]%string
  /\ occurrences "L"
       (r_store
          (rearrangeRun Scenario.dbWithL [Scenario.H] [Scenario.unitWithL]))
     = 0%nat
  /\ map (fun p => (pl_itemId p, pl_position p))
         (placements
            (findOptimalPlacement Scenario.dbWithX [Scenario.X; Scenario.H]
                                  [Scenario.unitC]))
     = [("X", Scenario.box 0 0 0 1); ("H", Scenario.box 0 0 0 1)]%string
  /\ placedIds
       (snd (findOptimalPlacementRun Scenario.dbWithX
               [Scenario.X; Scenario.H] [Scenario.unitC]))
     = ["H"]%string.
Proof. vm_compute. repeat split; reflexivity. Qed.

(** C4 at a failing input: [CA] and [CB] each hold a unit item of
    priority 1 at the origin, [CD] is a free container 1 x 1 x 100, and
    the 2 x 2 x 2 item [H] of priority 9 is to be placed.  After the
    eviction in [CA] has placed [H] there, the pass goes on with [CB],
    evicts again and records a second placement of [H]: [H] ends with a
    record in [CA] and a record in [CB].  The batch placement reaches
    this state from empty containers when the request gives [L1] and [L2]
    a priority above that of [H]. *)
Theorem rearrange_places_item_twice :
  map (fun p => (pl_itemId p, pl_containerId p))
      (fst (rearrangeForUnplacedItems Scenario.dbWithL1L2 [Scenario.H2]
              [Scenario.CA; Scenario.CB; Scenario.CD]))
  = [("H", "CA"); ("H", "CB")]%string
  /\ map (fun s => (ra_step s, ra_action s, ra_itemId s, toContainer s))
         (snd (rearrangeForUnplacedItems Scenario.dbWithL1L2 [Scenario.H2]
                 [Scenario.CA; Scenario.CB; Scenario.CD]))
     = [(1, remove, "L1", None); (2, place, "H", Some "CA");
        (3, place, "L1", Some "CD"); (4, remove, "L2", None);
        (5, place, "H", Some "CB"); (6, place, "L2", Some "CD")]%string
  /\ map (fun c => (containerId c, map placedId (items c)))
         (r_store (rearrangeRun Scenario.dbWithL1L2 [Scenario.H2]
                     [Scenario.CA; Scenario.CB; Scenario.CD]))
     = [("CA", ["H"]); ("CB", ["H"]); ("CD", ["L1"; "L2"])]%string
  /\ occurrences "H"
       (r_store (rearrangeRun Scenario.dbWithL1L2 [Scenario.H2]
                   [Scenario.CA; Scenario.CB; Scenario.CD]))
     = 2%nat
  /\ map itemId
         (p_unplaced (firstPass Scenario.batchL1L2H
                        [Scenario.emptyCA; Scenario.emptyCB;
                         Scenario.emptyCD]))
     = ["H"]%string
  /\ map (fun p => (pl_itemId p, pl_containerId p))
         (placements
            (findOptimalPlacement Scenario.dbWithL1L2 Scenario.batchL1L2H
               [Scenario.emptyCA; Scenario.emptyCB; Scenario.emptyCD]))
     = [("L1", "CA"); ("L2", "CB"); ("H", "CA"); ("H", "CB")]%string.
Proof. vm_compute. repeat split; reflexivity. Qed.

(** ** Batch placement: the success flag and the existing occupancy *)

Lemma success_formula d its containers :
  success (findOptimalPlacement d its containers) = true
  <-> p_unplaced (firstPass its containers) = []
      \/ rearrangements (findOptimalPlacement d its containers) <> [].
Proof.
  unfold findOptimalPlacement, findOptimalPlacementRun. simpl.
  destruct (p_unplaced (firstPass its containers)) as [|u us]; simpl.
  - split; auto.
  - destruct (r_rearrangements _) as [|s ss]; simpl.
    + split; [discriminate|]. intros [H|H]; [discriminate|contradiction].
    + split; auto.
Qed.

(** C2 at a failing input: a batch [X], [H], [G] for one unit container,
    where the database knows [X] with priority 1.  [X] is placed first,
    the pass for the unplaced [H] and [G] evicts [X] for [H], and [G],
    which is larger than the container, stays unplaced; the flag is true
    nevertheless, because a rearrangement step was recorded. *)
Theorem success_with_unplaced_item :
  success (findOptimalPlacement Scenario.dbWithX
             [Scenario.X; Scenario.H; Scenario.G] [Scenario.unitC])
  = true
  /\ map itemId
         (p_unplaced (firstPass [Scenario.X; Scenario.H; Scenario.G]
                                [Scenario.unitC]))
     = ["H"; "G"]%string
  /\ map pl_itemId
         (placements (findOptimalPlacement Scenario.dbWithX
                        [Scenario.X; Scenario.H; Scenario.G]
                        [Scenario.unitC]))
     = ["X"; "H"]%string
  /\ placedIds
       (snd (findOptimalPlacementRun Scenario.dbWithX
               [Scenario.X; Scenario.H; Scenario.G] [Scenario.unitC]))
     = ["H"]%string.
Proof. vm_compute. repeat split; reflexivity. Qed.

Lemma buildContainerMap_ignores_items (containers : list Container) :
  buildContainerMap (map (fun c => with_items c []) containers)
  = buildContainerMap containers.
Proof.
  unfold buildContainerMap. generalize (@nil (string * Container)).
  induction containers as [|c cs IH]; intros m; simpl; auto.
Qed.

(** The batch placement is computed as if every supplied container were
    empty. *)
Lemma findOptimalPlacement_ignores_items d its containers :
  findOptimalPlacement d its (map (fun c => with_items c []) containers)
  = findOptimalPlacement d its containers.
Proof.
  unfold findOptimalPlacement, findOptimalPlacementRun, firstPass.
  rewrite buildContainerMap_ignores_items. reflexivity.
Qed.

(** C3 at a failing input: the database holds the 10 x 10 x 10 container
    [C1] with [A] at (0,0,0)-(4,4,4), and the request asks to place the
    4 x 4 x 4 item [B] with [C1] among the containers.  The route takes
    the stored container, the service empties its working copy, and the
    returned placement of [B] is (0,0,0)-(4,4,4), on top of [A]; against
    the stored occupancy the scan gives (4,0,0)-(8,4,4). *)
Theorem placement_ignores_existing_occupancy :
  containerObjects Scenario.dbWithC1 [Scenario.C1] = [Scenario.C1withA]
  /\ fst (placementRoute Scenario.dbWithC1 [Scenario.B] [Scenario.C1])
     = mkPlacementResult true
         [mkPlacement "B" "C1" (Scenario.box 0 0 0 4)] []
  /\ itemsOverlap (Scenario.box 0 0 0 4) (Scenario.box 0 0 0 4) = true
  /\ canFitItem Scenario.C1withA Scenario.B (Scenario.box 0 0 0 4) = false
  /\ findPositionInContainer Scenario.B Scenario.C1withA
     = Some (Scenario.box 4 0 0 4)
  /\ db.getItem
       (snd (placementRoute Scenario.dbWithC1 [Scenario.B] [Scenario.C1]))
       "B"
     = Some (setPlacement Scenario.B "C1" (Scenario.box 0 0 0 4))
  /\ db.getContainer
       (snd (placementRoute Scenario.dbWithC1 [Scenario.B] [Scenario.C1]))
       "C1"
     = Some Scenario.C1withA.
Proof. vm_compute. repeat split; reflexivity. Qed.

(** * Further properties of the code *)

(** ** Container: volumes *)

Lemma fold_volume (l : list PlacedItem) (a : Z) :
  fold_left
    (fun total it =>
       total + item_width (placed it) * item_depth (placed it)
               * item_height (placed it)) l a
  = a + fold_left
          (fun total it =>
             total + item_width (placed it) * item_depth (placed it)
                     * item_height (placed it)) l 0.
Proof.
  revert a. induction l as [|r l IH]; intros a; simpl; [lia|].
  rewrite IH, (IH (0 + _)). lia.
Qed.

Lemma occupied_middle (c : Container) (l1 l2 : list PlacedItem)
  (r : PlacedItem) :
  getOccupiedVolume (with_items c (l1 ++ r :: l2))
  = getOccupiedVolume (with_items c (l1 ++ l2)) + recordVolume r.
Proof.
  unfold getOccupiedVolume, recordVolume. simpl.
  rewrite !fold_left_app. simpl.
  rewrite (fold_volume l2 (_ + _)), (fold_volume l2 (fold_left _ l1 0)). lia.
Qed.

Lemma with_items_id (c : Container) : with_items c (items c) = c.
Proof. destruct c; reflexivity. Qed.

Lemma removeFirst_find (id : string) (l : list PlacedItem) :
  fst (removeFirst id l)
  = List.find (fun it => String.eqb (placedId it) id) l.
Proof.
  induction l as [|a l IH]; simpl; auto.
  destruct (String.eqb (placedId a) id); auto.
  destruct (removeFirst id l); simpl in *; auto.
Qed.

Lemma removeItem_findItem (c : Container) (id : string) :
  fst (removeItem c id) = findItem c id.
Proof.
  unfold removeItem, findItem. rewrite <- removeFirst_find.
  destruct (removeFirst id (items c)) as [[r|] l]; reflexivity.
Qed.

(** What [removeItem] does to the list of records. *)
Lemma removeItem_items (c : Container) (id : string) :
  match findItem c id with
  | Some r =>
      exists l1 l2,
        items c = l1 ++ r :: l2
        /\ removeItem c id = (Some r, with_items c (l1 ++ l2))
        /\ placedId r = id
        /\ Forall (fun a => placedId a <> id) l1
  | None => removeItem c id = (None, c)
  end.
Proof.
  rewrite <- removeItem_findItem. unfold removeItem.
  pose proof (removeFirst_spec id (items c)) as Hs.
  destruct (removeFirst id (items c)) as [[r|] l]; simpl; auto.
  destruct Hs as (l1 & l2 & Hl & -> & Hid & Hl1).
  exists l1, l2. auto.
Qed.

(** X1. [addItem] that succeeds raises the occupied volume by the volume
    of the item's dimensions and lowers the available volume by as much;
    [removeItem] of a record gives that record's volume back; neither
    changes the total volume. *)
Theorem volume_accounting (c : Container) (item : Item) (pos : Position)
  (id : string) :
  (canFitItem c item pos = true ->
   getOccupiedVolume (snd (addItem c item pos))
   = getOccupiedVolume c
     + item_width item * item_depth item * item_height item
   /\ getAvailableVolume (snd (addItem c item pos))
      = getAvailableVolume c
        - item_width item * item_depth item * item_height item)
  /\ (canFitItem c item pos = false ->
      getAvailableVolume (snd (addItem c item pos)) = getAvailableVolume c)
  /\ (forall r,
         findItem c id = Some r ->
         getOccupiedVolume (snd (removeItem c id))
         = getOccupiedVolume c - recordVolume r
         /\ getAvailableVolume (snd (removeItem c id))
            = getAvailableVolume c + recordVolume r)
  /\ (findItem c id = None ->
      getAvailableVolume (snd (removeItem c id)) = getAvailableVolume c)
  /\ getTotalVolume (snd (addItem c item pos)) = getTotalVolume c
  /\ getTotalVolume (snd (removeItem c id)) = getTotalVolume c.
Proof.
  split; [|split; [|split; [|split; [|split]]]].
  - intros Hfit. unfold addItem. rewrite Hfit. simpl.
    assert (getOccupiedVolume
              (with_items c (items c ++ [mkPlaced item pos]))
            = getOccupiedVolume c
              + item_width item * item_depth item * item_height item) as Ho.
    { rewrite (occupied_middle c (items c) [] (mkPlaced item pos)).
      rewrite app_nil_r, with_items_id. reflexivity. }
    split; [exact Ho|]. unfold getAvailableVolume. rewrite Ho.
    unfold getTotalVolume. simpl. lia.
  - intros Hfit. unfold addItem. rewrite Hfit. reflexivity.
  - intros r Hfind. pose proof (removeItem_items c id) as Hr.
    rewrite Hfind in Hr. destruct Hr as (l1 & l2 & Hl & -> & _). simpl.
    assert (getOccupiedVolume c
            = getOccupiedVolume (with_items c (l1 ++ l2)) + recordVolume r)
      as Ho.
    { rewrite <- occupied_middle, <- Hl, with_items_id. reflexivity. }
    unfold getAvailableVolume. rewrite Ho. unfold getTotalVolume. simpl. lia.
  - intros Hfind. pose proof (removeItem_items c id) as Hr.
    rewrite Hfind in Hr. rewrite Hr. reflexivity.
  - unfold addItem. destruct (canFitItem c item pos); reflexivity.
  - pose proof (removeItem_items c id) as Hr.
    destruct (findItem c id) as [r|].
    + destruct Hr as (l1 & l2 & _ & -> & _). reflexivity.
    + rewrite Hr. reflexivity.
Qed.

(** [B] next to [A] in [C1]: 64 more occupied; removing [A] frees 64. *)
Lemma volume_accounting_witness :
  getOccupiedVolume
    (snd (addItem Scenario.C1withA Scenario.B (Scenario.box 4 0 0 4)))
  = getOccupiedVolume Scenario.C1withA + 4 * 4 * 4
  /\ getAvailableVolume (snd (removeItem Scenario.C1withA "A"))
     = getAvailableVolume Scenario.C1withA + 64.
Proof.
  split.
  - apply (proj1 (volume_accounting Scenario.C1withA Scenario.B
                    (Scenario.box 4 0 0 4) "A")).
    reflexivity.
  - apply (proj1 (proj2 (proj2
             (volume_accounting Scenario.C1withA Scenario.B
                (Scenario.box 4 0 0 4) "A")))
             (mkPlaced Scenario.A (Scenario.box 0 0 0 4))).
    reflexivity.
Defined.

(** ** Container: adding, finding and removing records *)

Lemma removeFirst_app_fresh (id : string) (l : list PlacedItem)
  (r : PlacedItem) :
  Forall (fun a => placedId a <> id) l -> placedId r = id ->
  removeFirst id (l ++ [r]) = (Some r, l).
Proof.
  intros Hl Hr. induction l as [|a l IH]; simpl.
  - rewrite (proj2 (String.eqb_eq _ _) Hr). reflexivity.
  - inversion Hl as [|? ? Ha Hl']; subst.
    rewrite (proj2 (String.eqb_neq _ _) Ha), (IH Hl'). reflexivity.
Qed.

Lemma NoOverlap_middle (l1 l2 : list PlacedItem) (r : PlacedItem) :
  NoOverlap (l1 ++ r :: l2) ->
  Forall (fun a => itemsOverlap (position a) (position r) = false)
         (l1 ++ l2).
Proof.
  induction l1 as [|a l1 IH]; simpl.
  - intros [H _]. eapply Forall_impl; [exact H|].
    intros b Hb. simpl in Hb. rewrite itemsOverlap_sym. exact Hb.
  - intros [H1 H2]. constructor; [|apply IH, H2].
    rewrite Forall_app in H1. destruct H1 as [_ H1].
    inversion H1; subst; auto.
Qed.

Lemma find_other_middle (id' : string) (l1 l2 : list PlacedItem)
  (r : PlacedItem) :
  placedId r <> id' ->
  List.find (fun it => String.eqb (placedId it) id') (l1 ++ l2)
  = List.find (fun it => String.eqb (placedId it) id') (l1 ++ r :: l2).
Proof.
  intros Hr. induction l1 as [|a l1 IH]; simpl.
  - rewrite (proj2 (String.eqb_neq _ _) Hr). reflexivity.
  - destruct (String.eqb (placedId a) id'); auto.
Qed.

(** X2. [removeItem] returns the record [findItem] finds, the first one
    with the id; without such a record it returns nothing and leaves the
    container as it is, with one it shortens the list by one and leaves
    the lookup of every other id as it was. *)
Theorem removeItem_lookup (c : Container) (id : string) :
  fst (removeItem c id) = findItem c id
  /\ (findItem c id = None -> removeItem c id = (None, c))
  /\ (forall r,
         findItem c id = Some r ->
         placedId r = id
         /\ S (length (items (snd (removeItem c id)))) = length (items c)
         /\ shapeOf (snd (removeItem c id)) = shapeOf c)
  /\ (forall id',
         id' <> id -> findItem (snd (removeItem c id)) id' = findItem c id').
Proof.
  pose proof (removeItem_items c id) as Hr.
  split; [apply removeItem_findItem|]. split; [|split].
  - intros Hnone. rewrite Hnone in Hr. exact Hr.
  - intros r Hsome. rewrite Hsome in Hr.
    destruct Hr as (l1 & l2 & Hl & -> & Hid & _). simpl.
    split; [exact Hid|]. split; [|reflexivity].
    rewrite Hl, !length_app. simpl. lia.
  - intros id' Hne. destruct (findItem c id) as [r|].
    + destruct Hr as (l1 & l2 & Hl & -> & Hid & _).
      unfold findItem. simpl. rewrite Hl.
      apply find_other_middle. congruence.
    + rewrite Hr. reflexivity.
Qed.

(** Removing an id the shelf does not hold; removing [Y] keeps [Z]. *)
Lemma removeItem_lookup_witness :
  removeItem Scenario.shelf "Q" = (None, Scenario.shelf)
  /\ findItem (snd (removeItem Scenario.shelf "Y")) "Z"
     = findItem Scenario.shelf "Z".
Proof.
  split.
  - apply (proj1 (proj2 (removeItem_lookup Scenario.shelf "Q"))).
    reflexivity.
  - apply (proj2 (proj2 (proj2 (removeItem_lookup Scenario.shelf "Y")))).
    discriminate.
Defined.

(** X3. Round trips.  After an [addItem] that succeeds for an id the
    container did not hold, [removeItem] of that id returns the added
    record and restores the container.  After a [removeItem] from a
    container whose records are in bounds and do not overlap, [addItem]
    of the removed record at its position succeeds and puts it back, at
    the end of the list. *)
Theorem add_remove_round_trip (c : Container) :
  (forall item pos,
      canFitItem c item pos = true ->
      Forall (fun a => placedId a <> itemId item) (items c) ->
      removeItem (snd (addItem c item pos)) (itemId item)
      = (Some (mkPlaced item pos), c))
  /\ (forall id r,
         findItem c id = Some r ->
         NoOverlap (items c) -> AllInBounds c ->
         fst (addItem (snd (removeItem c id)) (placed r) (position r)) = true
         /\ Permutation
              (items (snd (addItem (snd (removeItem c id)) (placed r)
                                   (position r))))
              (items c)
         /\ exists l, items (snd (addItem (snd (removeItem c id)) (placed r)
                                          (position r)))
                      = l ++ [r]).
Proof.
  split.
  - intros item pos Hfit Hfresh. unfold addItem. rewrite Hfit. simpl.
    unfold removeItem. simpl.
    rewrite (removeFirst_app_fresh (itemId item) (items c)
               (mkPlaced item pos) Hfresh eq_refl).
    destruct c; reflexivity.
  - intros id r Hfind Hno Hb. pose proof (removeItem_items c id) as Hr.
    rewrite Hfind in Hr. destruct Hr as (l1 & l2 & Hl & -> & _). simpl.
    assert (canFitItem (with_items c (l1 ++ l2)) (placed r) (position r)
            = true) as Hfit.
    { apply canFitItem_true. simpl. split.
      - unfold AllInBounds in Hb. rewrite Hl, Forall_app in Hb.
        destruct Hb as [_ Hb]. inversion Hb; subst; auto.
      - apply NoOverlap_middle. rewrite <- Hl. exact Hno. }
    unfold addItem. rewrite Hfit. simpl.
    assert (mkPlaced (placed r) (position r) = r) as -> by (destruct r; auto).
    split; [reflexivity|]. split.
    + rewrite Hl, <- app_assoc. apply Permutation_app_head.
      symmetry. apply Permutation_cons_append.
    + exists (l1 ++ l2). reflexivity.
Qed.

(** [B] added to [C1] and removed again; [Y] taken from the shelf and
    put back. *)
Lemma add_remove_round_trip_witness :
  removeItem (snd (addItem Scenario.C1withA Scenario.B
                           (Scenario.box 4 0 0 4))) "B"
  = (Some (mkPlaced Scenario.B (Scenario.box 4 0 0 4)), Scenario.C1withA)
  /\ fst (addItem (snd (removeItem Scenario.shelf "Y"))
                  (Scenario.cube "Y" 2 1) (Scenario.box 0 0 0 2))
     = true.
Proof.
  split.
  - apply (proj1 (add_remove_round_trip Scenario.C1withA) Scenario.B
             (Scenario.box 4 0 0 4)).
    + reflexivity.
    + repeat constructor. discriminate.
  - apply (proj2 (add_remove_round_trip Scenario.shelf) "Y"
             (mkPlaced (Scenario.cube "Y" 2 1) (Scenario.box 0 0 0 2))).
    + reflexivity.
    + simpl. repeat constructor.
    + unfold AllInBounds, inBounds. simpl. repeat constructor; simpl; lia.
Defined.

(** ** Container: occupied space *)

Lemma itemsOverlap_true (p q : Position) :
  itemsOverlap p q = true
  <-> width (startCoordinates p) < width (endCoordinates q)
      /\ width (startCoordinates q) < width (endCoordinates p)
      /\ depth (startCoordinates p) < depth (endCoordinates q)
      /\ depth (startCoordinates q) < depth (endCoordinates p)
      /\ height (startCoordinates p) < height (endCoordinates q)
      /\ height (startCoordinates q) < height (endCoordinates p).
Proof.
  unfold itemsOverlap.
  rewrite negb_true_iff, !orb_false_iff, !Z.leb_gt, !Z.geb_leb, !Z.leb_gt.
  tauto.
Qed.

(** X4. A box overlaps itself exactly when it has a positive extent on
    every axis.  After an [addItem] that succeeds, [canFitItem] is false
    at every position that overlaps the added box, so a box of positive
    extent cannot be added a second time; a box with no extent on some
    axis still fits at its own place. *)
Theorem occupied_space_refused (c : Container) (item : Item) (pos : Position) :
  (itemsOverlap pos pos = true <-> positiveExtent pos)
  /\ (canFitItem c item pos = true ->
      forall item' pos',
        itemsOverlap pos pos' = true ->
        addItem (snd (addItem c item pos)) item' pos'
        = (false, snd (addItem c item pos)))
  /\ (canFitItem c item pos = true -> positiveExtent pos ->
      forall item',
        fst (addItem (snd (addItem c item pos)) item' pos) = false)
  /\ (canFitItem c item pos = true -> ~ positiveExtent pos ->
      forall item',
        fst (addItem (snd (addItem c item pos)) item' pos) = true).
Proof.
  assert (itemsOverlap pos pos = true <-> positiveExtent pos) as Hself.
  { rewrite itemsOverlap_true. unfold positiveExtent. tauto. }
  assert (canFitItem c item pos = true ->
          forall item' pos',
            itemsOverlap pos pos' = true ->
            canFitItem (snd (addItem c item pos)) item' pos' = false) as Hocc.
  { intros Hfit item' pos' Hov. unfold addItem. rewrite Hfit. simpl.
    apply not_true_is_false. intros Hc. apply canFitItem_true in Hc.
    destruct Hc as [_ Hall]. simpl in Hall. rewrite Forall_app in Hall.
    destruct Hall as [_ Hall]. inversion Hall; subst. simpl in *. congruence. }
  split; [exact Hself|]. split; [|split].
  - intros Hfit item' pos' Hov. unfold addItem at 1.
    rewrite (Hocc Hfit item' pos' Hov). reflexivity.
  - intros Hfit Hpos item'. unfold addItem at 1.
    rewrite (Hocc Hfit item' pos (proj2 Hself Hpos)). reflexivity.
  - intros Hfit Hdeg item'.
    assert (canFitItem (snd (addItem c item pos)) item' pos = true) as Hc.
    { unfold addItem. rewrite Hfit. simpl.
      apply canFitItem_true in Hfit. destruct Hfit as [Hb Hall].
      apply canFitItem_true. simpl. split; [exact Hb|].
      rewrite Forall_app. split; [exact Hall|]. constructor; [|constructor].
      simpl. apply not_true_is_false. intros E.
      apply Hself in E. contradiction. }
    unfold addItem at 1. rewrite Hc. reflexivity.
Qed.

(** [B] twice at (4,0,0)-(8,4,4) in [C1]; a flat box twice. *)
Lemma occupied_space_refused_witness :
  fst (addItem (snd (addItem Scenario.C1withA Scenario.B
                             (Scenario.box 4 0 0 4)))
               Scenario.B (Scenario.box 4 0 0 4))
  = false
  /\ fst (addItem (snd (addItem Scenario.C1withA Scenario.B
                                (Scenario.box 4 0 0 0)))
                  Scenario.B (Scenario.box 4 0 0 0))
     = true.
Proof.
  split.
  - apply (proj1 (proj2 (proj2
             (occupied_space_refused Scenario.C1withA Scenario.B
                (Scenario.box 4 0 0 4)))));
      [reflexivity|]. unfold positiveExtent. simpl. lia.
  - apply (proj2 (proj2 (proj2
             (occupied_space_refused Scenario.C1withA Scenario.B
                (Scenario.box 4 0 0 0)))));
      [reflexivity|]. unfold positiveExtent. simpl. lia.
Defined.

(** ** Room only shrinks by adding and only grows by removing *)

Lemma canFitItem_removeItem (c : Container) (id : string) (item : Item)
  (pos : Position) :
  canFitItem c item pos = true ->
  canFitItem (snd (removeItem c id)) item pos = true.
Proof.
  intros Hfit. pose proof (removeItem_items c id) as Hr.
  destruct (findItem c id) as [r|]; [|rewrite Hr; exact Hfit].
  destruct Hr as (l1 & l2 & Hl & -> & _). simpl.
  apply canFitItem_true in Hfit. destruct Hfit as [Hb Hall].
  apply canFitItem_true. simpl. split; [exact Hb|].
  rewrite Hl, Forall_app in Hall. destruct Hall as [H1 H2].
  inversion H2; subst. apply Forall_app. auto.
Qed.

Lemma canFitItem_addItem (c : Container) (it : Item) (p : Position)
  (item : Item) (pos : Position) :
  canFitItem c item pos = false ->
  canFitItem (snd (addItem c it p)) item pos = false.
Proof.
  intros Hno. unfold addItem. destruct (canFitItem c it p); auto. simpl.
  apply not_true_is_false. intros Hc. apply canFitItem_true in Hc.
  destruct Hc as [Hb Hall]. simpl in Hall. rewrite Forall_app in Hall.
  assert (canFitItem c item pos = true) as Hc.
  { apply canFitItem_true. split; [exact Hb|apply Hall]. }
  congruence.
Qed.

Lemma findPosition_addItem_None (c : Container) (it : Item) (p : Position)
  (item : Item) :
  findPositionInContainer item c = None ->
  findPositionInContainer item (snd (addItem c it p)) = None.
Proof.
  rewrite !findPosition_None. intros H x y z.
  apply canFitItem_addItem, H.
Qed.

(** X5. Removing a record never takes room away and adding one never
    makes room: a position that fits still fits after any [removeItem];
    an item without a position has none after any [addItem]; and after a
    [removeItem] the first-fit position of an item that had one is the
    same or an earlier one in the scan order. *)
Theorem room_monotone (c : Container) (item : Item) :
  (forall id pos,
      canFitItem c item pos = true ->
      canFitItem (snd (removeItem c id)) item pos = true)
  /\ (forall it p,
         findPositionInContainer item c = None ->
         findPositionInContainer item (snd (addItem c it p)) = None)
  /\ (forall id,
         findPositionInContainer item (snd (removeItem c id)) = None ->
         findPositionInContainer item c = None)
  /\ (forall id pos,
         findPositionInContainer item c = Some pos ->
         exists x y z x' y' z',
           pos = positionAt item x y z
           /\ findPositionInContainer item (snd (removeItem c id))
              = Some (positionAt item x' y' z')
           /\ ((x', y', z') = (x, y, z)
               \/ scanBefore (x', y', z') (x, y, z))).
Proof.
  split; [|split; [|split]].
  - intros id pos. apply canFitItem_removeItem.
  - intros it p. apply findPosition_addItem_None.
  - intros id. rewrite !findPosition_None. intros H x y z.
    apply not_true_is_false. intros Hc.
    apply (canFitItem_removeItem c id) in Hc. rewrite H in Hc. discriminate.
  - intros id pos Hsome. apply findPosition_Some in Hsome.
    destruct Hsome as (x & y & z & -> & Hfit & _).
    apply (canFitItem_removeItem c id) in Hfit.
    destruct (findPositionInContainer item (snd (removeItem c id)))
      as [q|] eqn:E.
    + apply findPosition_Some in E.
      destruct E as (x' & y' & z' & -> & _ & Hfirst).
      exists x, y, z, x', y', z'. split; [reflexivity|]. split; [reflexivity|].
      destruct (scanBefore_trichotomy (x', y', z') (x, y, z))
        as [Heq|[Hlt|Hgt]]; auto.
      apply Hfirst in Hgt. congruence.
    + rewrite findPosition_None in E. rewrite E in Hfit. discriminate.
Qed.

(** The item [G] does not fit the unit container, with or without [L];
    a second 4 x 4 x 4 item moves to the origin once [A] is gone. *)
Lemma room_monotone_witness :
  findPositionInContainer Scenario.G
    (snd (addItem Scenario.unitC Scenario.L (Scenario.box 0 0 0 1)))
  = None
  /\ canFitItem (snd (removeItem Scenario.C1withA "A")) Scenario.B
                (Scenario.box 4 0 0 4)
     = true.
Proof.
  split.
  - apply (proj1 (proj2 (room_monotone Scenario.unitC Scenario.G))).
    reflexivity.
  - apply (proj1 (room_monotone Scenario.C1withA Scenario.B)).
    reflexivity.
Defined.

(** ** Blocking *)



(** ** What every pass does to the containers, slot by slot *)

Section StoreRelation.
Variable R : Container -> Container -> Prop.
Hypothesis R_refl : forall c, R c c.
Hypothesis R_trans : forall c1 c2 c3, R c1 c2 -> R c2 c3 -> R c1 c3.
Hypothesis R_add : forall c item pos, R c (snd (addItem c item pos)).
Hypothesis R_remove : forall c id, R c (snd (removeItem c id)).

Lemma related_refl (store : list Container) : Forall2 R store store.
Proof. induction store; constructor; auto. Qed.

Lemma related_trans (s1 s2 s3 : list Container) :
  Forall2 R s1 s2 -> Forall2 R s2 s3 -> Forall2 R s1 s3.
Proof.
  intros H12. revert s3. induction H12; intros s3 H23; inversion H23; subst;
    constructor; eauto.
Qed.

Lemma related_update (store : list Container) (i : nat) (c c' : Container) :
  store !! i = Some c -> R c c' -> Forall2 R store (<[i := c']> store).
Proof.
  intros Hi Hc. rewrite <- (list_insert_id store i c Hi) at 1.
  apply Forall2_insert; auto. apply related_refl.
Qed.

Lemma rehome_related low cid others st :
  Forall2 R (r_store st) (r_store (snd (rehome low cid others st))).
Proof.
  induction others as [|j rest IH]; simpl; [apply related_refl|].
  destruct (r_store st !! j) as [other|] eqn:Ej; auto.
  destruct (String.eqb _ cid); auto.
  destruct (findPositionInContainer _ other); auto.
  simpl. eapply related_update; eauto.
Qed.

Lemma evictLoop_related item i sorted lows st :
  Forall2 R (r_store st) (r_store (evictLoop item i sorted lows st)).
Proof.
  revert st. induction lows as [|low rest IH]; intros st; simpl;
    [apply related_refl|].
  destruct (r_store st !! i) as [c0|] eqn:Ei; [|apply related_refl].
  destruct (findPositionInContainer item _) as [newPosition|].
  - match goal with
    | |- context [rehome ?l ?c ?s ?t] =>
        pose proof (rehome_related l c s t) as Hr;
        destruct (rehome l c s t) as [newHome st3]
    end.
    simpl in Hr.
    assert (Forall2 R (r_store st) (r_store st3)) as H3.
    { eapply related_trans; [|exact Hr].
      eapply related_update; eauto. }
    destruct newHome; auto.
    destruct (r_store st3 !! i) eqn:E3; auto. simpl.
    eapply related_trans; [exact H3|]. eapply related_update; eauto.
  - eapply related_trans; [|apply IH]. simpl.
    eapply related_update; eauto.
Qed.

Lemma containerLoop_related d item sorted todo st :
  Forall2 R (r_store st) (r_store (containerLoop d item sorted todo st)).
Proof.
  revert st. induction todo as [|i rest IH]; intros st; simpl;
    [apply related_refl|].
  destruct (r_store st !! i) as [c|] eqn:Ei; auto.
  destruct (findPositionInContainer item c).
  - simpl. eapply related_update; eauto.
  - eapply related_trans; [|apply IH]. apply evictLoop_related.
Qed.

Lemma rearrangeRun_related d unplaced store :
  Forall2 R store (r_store (rearrangeRun d unplaced store)).
Proof.
  unfold rearrangeRun.
  change store with (r_store (mkRState store [] [] 1)) at 1.
  generalize (mkRState store [] [] 1). clear store.
  induction unplaced as [|item rest IH]; intros st; simpl;
    [apply related_refl|].
  eapply related_trans; [|apply IH]. apply containerLoop_related.
Qed.

Lemma placeFirstFit_related item candidates store pl store' :
  placeFirstFit item candidates store = Some (pl, store') ->
  Forall2 R store store'.
Proof.
  induction candidates as [|i rest IH]; simpl; [discriminate|].
  destruct (store !! i) as [c|] eqn:Ei; auto.
  destruct (findPositionInContainer item c); auto.
  intros [= <- <-]. eapply related_update; eauto.
Qed.

Lemma placeOne_related st item :
  Forall2 R (p_store st) (p_store (placeOne st item)).
Proof.
  unfold placeOne.
  repeat match goal with
         | |- context [match placeFirstFit ?i ?c ?s with _ => _ end] =>
             let E := fresh "E" in
             destruct (placeFirstFit i c s) as [[? ?]|] eqn:E; simpl;
             [exact (placeFirstFit_related _ _ _ _ _ E)|]
         end.
  apply related_refl.
Qed.

Lemma firstPass_related its containers :
  Forall2 R (mapValues (buildContainerMap containers))
            (p_store (firstPass its containers)).
Proof.
  unfold firstPass.
  change (mapValues (buildContainerMap containers))
    with (p_store (mkPassState (mapValues (buildContainerMap containers))
                               [] [])) at 1.
  generalize (mkPassState (mapValues (buildContainerMap containers)) [] []).
  induction (sortedItems its) as [|x l IH]; intros st; simpl;
    [apply related_refl|].
  eapply related_trans; [|apply IH]. apply placeOne_related.
Qed.

Lemma findOptimalPlacementRun_related d its containers :
  Forall2 R (mapValues (buildContainerMap containers))
            (snd (findOptimalPlacementRun d its containers)).
Proof.
  unfold findOptimalPlacementRun. simpl.
  destruct (0 <? length (p_unplaced (firstPass its containers)))%nat; simpl.
  - eapply related_trans; [apply firstPass_related|].
    apply rearrangeRun_related.
  - apply firstPass_related.
Qed.

Lemma applyOps_related (c : Container) (ops : list ContainerOp) :
  R c (applyOps c ops).
Proof.
  unfold applyOps. revert c. induction ops as [|op ops IH]; intros c; simpl;
    auto.
  eapply R_trans; [|apply IH]. destruct op; simpl; auto.
Qed.
End StoreRelation.

(** ** Bounds *)

Lemma addItem_AllInBounds (c : Container) (item : Item) (pos : Position) :
  AllInBounds c -> AllInBounds (snd (addItem c item pos)).
Proof.
  unfold AllInBounds, addItem. intros H.
  destruct (canFitItem c item pos) eqn:E; auto. simpl.
  apply Forall_app. split; [exact H|]. constructor; [|constructor].
  apply canFitItem_true in E. apply E.
Qed.

Lemma removeItem_AllInBounds (c : Container) (id : string) :
  AllInBounds c -> AllInBounds (snd (removeItem c id)).
Proof.
  unfold AllInBounds. intros H. pose proof (removeItem_items c id) as Hr.
  destruct (findItem c id) as [r|]; [|rewrite Hr; exact H].
  destruct Hr as (l1 & l2 & Hl & -> & _). simpl.
  rewrite Hl, Forall_app in H. destruct H as [H1 H2].
  inversion H2; subst. apply Forall_app. auto.
Qed.

Lemma Forall2_implies_Forall (P : Container -> Prop) (s s' : list Container) :
  Forall2 (fun c c' => P c -> P c') s s' -> Forall P s -> Forall P s'.
Proof.
  induction 1; intros H'; inversion H'; subst; constructor; auto.
Qed.

(** X7. Every record an operation leaves in a container lies within the
    bounds of the container, when those it found did: under any sequence
    of [addItem] and [removeItem], under a rearrangement pass and in the
    working containers of a batch placement, which start empty. *)
Theorem bounds_invariant :
  (forall c ops, AllInBounds c -> AllInBounds (applyOps c ops))
  /\ (forall d unplacedItems store,
         Forall AllInBounds store ->
         Forall AllInBounds (r_store (rearrangeRun d unplacedItems store)))
  /\ (forall d its containers,
         Forall AllInBounds (snd (findOptimalPlacementRun d its containers))).
Proof.
  set (R := fun c c' : Container => AllInBounds c -> AllInBounds c').
  assert (forall c, R c c) as R_refl by (intros c H; exact H).
  assert (forall c1 c2 c3, R c1 c2 -> R c2 c3 -> R c1 c3) as R_trans
      by (intros c1 c2 c3 H12 H23 H; auto).
  assert (forall c item pos, R c (snd (addItem c item pos))) as R_add
      by (intros c item pos H; apply addItem_AllInBounds, H).
  assert (forall c id, R c (snd (removeItem c id))) as R_remove
      by (intros c id H; apply removeItem_AllInBounds, H).
  split; [|split].
  - intros c ops. apply (applyOps_related R R_refl R_trans R_add R_remove).
  - intros d unplacedItems store.
    apply (Forall2_implies_Forall AllInBounds).
    apply (rearrangeRun_related R R_refl R_trans R_add R_remove).
  - intros d its containers.
    apply (Forall2_implies_Forall AllInBounds
             (mapValues (buildContainerMap containers))).
    + apply (findOptimalPlacementRun_related R R_refl R_trans R_add R_remove).
    + eapply Forall_impl; [apply buildContainerMap_empty|].
      simpl. intros c Hc. unfold AllInBounds. rewrite Hc. constructor.
Qed.

(** The pass over [CA], [CB] and [CD]. *)
Lemma bounds_invariant_witness :
  Forall AllInBounds
    (r_store (rearrangeRun Scenario.dbWithL1L2 [Scenario.H2]
                [Scenario.CA; Scenario.CB; Scenario.CD])).
Proof.
  apply (proj1 (proj2 bounds_invariant)).
  repeat (apply Forall_cons_2;
          [unfold AllInBounds, inBounds; simpl;
           repeat constructor; simpl; lia|]).
  apply Forall_nil_2.
Defined.

(** ** The working containers of a batch *)

Lemma mapSet_keysAgree c m :
  keysAgree m -> keysAgree (mapSet (containerId c) (with_items c []) m).
Proof.
  unfold keysAgree. induction m as [|[k v] m IH]; simpl; intros H.
  - repeat constructor.
  - inversion H; subst. destruct (String.eqb k (containerId c));
      constructor; auto.
Qed.

Lemma mapSet_keys k v m :
  map fst (mapSet k v m)
  = if bool_decide (k ∈ map fst m) then map fst m else map fst m ++ [k].
Proof.
  induction m as [|[k' v'] m IH]; cbn [mapSet map fst].
  - rewrite bool_decide_eq_false_2; auto. apply not_elem_of_nil.
  - destruct (String.eqb_spec k' k) as [->|Hne]; cbn [map fst].
    + rewrite bool_decide_eq_true_2; auto. apply list_elem_of_here.
    + rewrite IH. destruct (bool_decide (k ∈ map fst m)) eqn:E.
      * apply bool_decide_eq_true in E. rewrite bool_decide_eq_true_2; auto.
        apply list_elem_of_further, E.
      * apply bool_decide_eq_false in E.
        rewrite bool_decide_eq_false_2; auto.
        intros Hin. apply elem_of_cons in Hin.
        destruct Hin as [?|?]; auto.
Qed.

Lemma mapSet_NoDup k v m : NoDup (map fst m) -> NoDup (map fst (mapSet k v m)).
Proof.
  intros H. rewrite mapSet_keys.
  destruct (bool_decide (k ∈ map fst m)) eqn:E; auto.
  apply bool_decide_eq_false in E. apply NoDup_app. split; [exact H|].
  split; [|apply NoDup_singleton].
  intros x Hx Hx'. apply list_elem_of_singleton in Hx'. subst.
  apply E, Hx.
Qed.

Lemma mapSet_find k c m :
  keysAgree m ->
  List.find (fun v => String.eqb (containerId v) k)
            (mapValues (mapSet (containerId c) (with_items c []) m))
  = if String.eqb (containerId c) k then Some (with_items c [])
    else List.find (fun v => String.eqb (containerId v) k) (mapValues m).
Proof.
  unfold keysAgree, mapValues. induction m as [|[k' v'] m IH]; simpl; intros H.
  - destruct (String.eqb (containerId c) k); reflexivity.
  - inversion H as [|? ? Hk H']; subst. simpl in Hk. subst k'.
    destruct (String.eqb_spec (containerId v') (containerId c)) as [Heq|Hne];
      simpl.
    + rewrite Heq. destruct (String.eqb (containerId c) k); reflexivity.
    + rewrite (IH H').
      destruct (String.eqb_spec (containerId v') k) as [Hk|Hk]; auto.
      rewrite (proj2 (String.eqb_neq _ _)); auto. congruence.
Qed.

Lemma find_snoc {A : Type} (f : A -> bool) (l : list A) (x : A) :
  List.find f (l ++ [x])
  = match List.find f l with
    | Some y => Some y
    | None => if f x then Some x else None
    end.
Proof.
  induction l as [|a l IH]; simpl; auto. destruct (f a); auto.
Qed.

Lemma buildContainerMap_facts containers m :
  keysAgree m -> NoDup (map fst m) ->
  let m' :=
    fold_left (fun m c => mapSet (containerId c) (with_items c []) m)
              containers m in
  keysAgree m' /\ NoDup (map fst m')
  /\ forall k,
       List.find (fun v => String.eqb (containerId v) k) (mapValues m')
       = match List.find (fun c => String.eqb (containerId c) k)
                         (rev containers) with
         | Some c => Some (with_items c [])
         | None =>
             List.find (fun v => String.eqb (containerId v) k) (mapValues m)
         end.
Proof.
  revert m. induction containers as [|c cs IH]; intros m Hk Hn; simpl.
  - auto.
  - destruct (IH _ (mapSet_keysAgree c m Hk)
                (mapSet_NoDup _ _ m Hn)) as (H1 & H2 & H3).
    split; [exact H1|]. split; [exact H2|]. intros k. rewrite H3.
    rewrite find_snoc.
    destruct (List.find _ (rev cs)); auto.
    rewrite (mapSet_find k c m Hk).
    destruct (String.eqb (containerId c) k); reflexivity.
Qed.

Lemma buildContainerMap_NoDup (containers : list Container) :
  NoDup (map containerId (mapValues (buildContainerMap containers))).
Proof.
  destruct (buildContainerMap_facts containers []) as (Hk & Hn & _);
    [constructor|constructor|].
  fold (buildContainerMap containers) in Hk, Hn.
  assert (map containerId (mapValues (buildContainerMap containers))
          = map fst (buildContainerMap containers)) as ->; [|exact Hn].
  unfold mapValues. rewrite map_map. apply map_ext_Forall.
  eapply Forall_impl; [exact Hk|]. simpl. auto.
Qed.

(** X8. The working containers of a batch placement are one per
    distinct supplied container id, all empty; the one for an id carries
    the zone and the dimensions of the last supplied container with that
    id; an id that was not supplied has none. *)
Theorem working_containers (containers : list Container) :
  NoDup (map containerId (mapValues (buildContainerMap containers)))
  /\ Forall (fun c => items c = [])
            (mapValues (buildContainerMap containers))
  /\ (forall k,
         List.find (fun v => String.eqb (containerId v) k)
                   (mapValues (buildContainerMap containers))
         = option_map (fun c => with_items c [])
             (List.find (fun c => String.eqb (containerId c) k)
                        (rev containers)))
  /\ (length (mapValues (buildContainerMap containers))
      <= length containers)%nat.
Proof.
  destruct (buildContainerMap_facts containers []) as (Hk & Hn & Hf);
    [constructor|constructor|].
  fold (buildContainerMap containers) in Hk, Hn, Hf.
  assert (map containerId (mapValues (buildContainerMap containers))
          = map fst (buildContainerMap containers)) as Hids.
  { unfold mapValues. rewrite map_map. apply map_ext_Forall.
    eapply Forall_impl; [exact Hk|]. simpl. auto. }
  split; [rewrite Hids; exact Hn|].
  split; [apply buildContainerMap_empty|]. split.
  - intros k. rewrite Hf. destruct (List.find _ (rev containers)); reflexivity.
  - unfold mapValues, buildContainerMap. rewrite length_map.
    assert (forall (cs : list Container) (m : list (string * Container)),
               (length
                  (fold_left
                     (fun m c => mapSet (containerId c) (with_items c []) m)
                     cs m)
                <= length m + length cs)%nat) as Hlen.
    { induction cs as [|c cs IH]; intros m; simpl; [lia|].
      specialize (IH (mapSet (containerId c) (with_items c []) m)).
      assert (length (mapSet (containerId c) (with_items c []) m)
              <= S (length m))%nat.
      { clear. induction m as [|[k v] m IH]; simpl; [lia|].
        destruct (String.eqb k (containerId c)); simpl; lia. }
      lia. }
    specialize (Hlen containers []). simpl in Hlen. exact Hlen.
Qed.

(** X9. Placement and rearrangement never add or drop a working
    container and never change a container's id, zone or dimensions:
    slot by slot, these are after a rearrangement pass, after a batch
    placement and after any sequence of [addItem] and [removeItem] what
    they were before. *)
Theorem containers_keep_shape :
  (forall c ops, shapeOf (applyOps c ops) = shapeOf c)
  /\ (forall d unplacedItems store,
         map shapeOf (r_store (rearrangeRun d unplacedItems store))
         = map shapeOf store)
  /\ (forall d its containers,
         map shapeOf (snd (findOptimalPlacementRun d its containers))
         = map shapeOf (mapValues (buildContainerMap containers))).
Proof.
  set (R := fun c c' : Container => shapeOf c = shapeOf c').
  assert (forall c, R c c) as R_refl by reflexivity.
  assert (forall c1 c2 c3, R c1 c2 -> R c2 c3 -> R c1 c3) as R_trans
      by (unfold R; intros; congruence).
  assert (forall c item pos, R c (snd (addItem c item pos))) as R_add.
  { intros c item pos. unfold R, addItem.
    destruct (canFitItem c item pos); reflexivity. }
  assert (forall c id, R c (snd (removeItem c id))) as R_remove.
  { intros c id. unfold R, removeItem.
    destruct (removeFirst id (items c)) as [[r|] l]; reflexivity. }
  assert (forall s s', Forall2 R s s' -> map shapeOf s' = map shapeOf s)
    as Hmap.
  { induction 1; simpl; auto. f_equal; auto. }
  split; [|split].
  - intros c ops. symmetry.
    apply (applyOps_related R R_refl R_trans R_add R_remove).
  - intros d unplacedItems store. apply Hmap.
    apply (rearrangeRun_related R R_refl R_trans R_add R_remove).
  - intros d its containers. apply Hmap.
    apply (findOptimalPlacementRun_related R R_refl R_trans R_add R_remove).
Qed.

(** ** First fit: the position found *)

Lemma findPosition_unique (item : Item) (c : Container) (x y z : Z) :
  canFitItem c item (positionAt item x y z) = true ->
  (forall x' y' z',
      scanBefore (x', y', z') (x, y, z) ->
      canFitItem c item (positionAt item x' y' z') = false) ->
  findPositionInContainer item c = Some (positionAt item x y z).
Proof.
  intros Hfit Hfirst.
  destruct (findPositionInContainer item c) as [q|] eqn:E.
  - apply findPosition_Some in E.
    destruct E as (x1 & y1 & z1 & -> & Hfit1 & Hfirst1).
    destruct (scanBefore_trichotomy (x1, y1, z1) (x, y, z))
      as [[= -> -> ->]|[Hlt|Hlt]]; auto.
    + apply Hfirst in Hlt. congruence.
    + apply Hfirst1 in Hlt. congruence.
  - rewrite findPosition_None in E. rewrite E in Hfit. discriminate.
Qed.

(** X10. In an empty container an item is put at the origin when each of
    its dimensions is at most the container's, and has no position
    otherwise. *)
Theorem findPosition_empty (item : Item) (c : Container) :
  items c = [] ->
  findPositionInContainer item c
  = if (item_width item <=? cont_width c)
       && (item_depth item <=? cont_depth c)
       && (item_height item <=? cont_height c)
    then Some (positionAt item 0 0 0) else None.
Proof.
  intros Hempty.
  destruct ((item_width item <=? cont_width c)
            && (item_depth item <=? cont_depth c)
            && (item_height item <=? cont_height c)) eqn:E.
  - rewrite !andb_true_iff, !Z.leb_le in E.
    apply findPosition_unique.
    + apply canFitItem_true. rewrite Hempty. split; [|constructor].
      unfold inBounds. simpl. lia.
    + intros x' y' z' Hlt. apply not_true_is_false. intros Hc.
      apply fits_bounds in Hc. unfold scanBefore in Hlt. lia.
  - apply findPosition_None. intros x y z. apply not_true_is_false.
    intros Hc. apply fits_bounds in Hc.
    rewrite !andb_false_iff, !Z.leb_gt in E. lia.
Qed.

(** [A] alone in the empty [C1] goes to (0,0,0)-(4,4,4). *)
Lemma findPosition_empty_witness :
  findPositionInContainer Scenario.A Scenario.C1
  = Some (Scenario.box 0 0 0 4).
Proof.
  apply (findPosition_empty Scenario.A Scenario.C1). reflexivity.
Defined.

Lemma found_position_fits (item : Item) (c : Container) (p : Position) :
  findPositionInContainer item c = Some p ->
  canFitItem c item p = true /\ hasDimensions item p.
Proof.
  intros Hsome. apply findPosition_Some in Hsome.
  destruct Hsome as (x & y & z & -> & Hfit & _). split; [exact Hfit|].
  unfold hasDimensions. simpl. lia.
Qed.

Lemma found_position_addItem (item : Item) (c : Container) (p : Position) :
  findPositionInContainer item c = Some p ->
  addItem c item p = (true, with_items c (items c ++ [mkPlaced item p])).
Proof.
  intros Hsome. unfold addItem.
  rewrite (proj1 (found_position_fits item c p Hsome)). reflexivity.
Qed.

(** X11. A position found by [findPositionInContainer] starts at
    non-negative coordinates, has the item's dimensions, lies within the
    container and is disjoint along an axis from every record; [addItem]
    at it succeeds, and keeps the records free of overlap when they
    were. *)
Theorem found_position_valid (item : Item) (c : Container) (p : Position) :
  findPositionInContainer item c = Some p ->
  inBounds c p
  /\ width (endCoordinates p) - width (startCoordinates p) = item_width item
  /\ depth (endCoordinates p) - depth (startCoordinates p) = item_depth item
  /\ height (endCoordinates p) - height (startCoordinates p)
     = item_height item
  /\ Forall (fun r => disjointAlongAnAxis (position r) p) (items c)
  /\ addItem c item p = (true, with_items c (items c ++ [mkPlaced item p]))
  /\ (NoOverlap (items c) -> NoOverlap (items c ++ [mkPlaced item p])).
Proof.
  intros Hsome. apply findPosition_Some in Hsome.
  destruct Hsome as (x & y & z & -> & Hfit & _).
  pose proof Hfit as Hc. apply canFitItem_true in Hc. destruct Hc as [Hb Hall].
  split; [exact Hb|]. simpl. repeat (split; [lia|]). split; [|split].
  - eapply Forall_impl; [exact Hall|]. intros r. apply itemsOverlap_false.
  - unfold addItem. rewrite Hfit. reflexivity.
  - intros Hno. apply NoOverlap_app. auto.
Qed.

(** [B] beside [A] in [C1]. *)
Lemma found_position_valid_witness :
  addItem Scenario.C1withA Scenario.B (Scenario.box 4 0 0 4)
  = (true,
     with_items Scenario.C1withA
       (items Scenario.C1withA
          ++ [mkPlaced Scenario.B (Scenario.box 4 0 0 4)])).
Proof.
  apply (found_position_valid Scenario.B Scenario.C1withA
           (Scenario.box 4 0 0 4)).
  reflexivity.
Defined.

(** ** Sorting *)

Section SortByKey.
Context {A : Type} (cmp : A -> A -> Z) (key : A -> Z).
Hypothesis cmp_key : forall a b, cmp a b = key a - key b.

Lemma insertSorted_Permutation (x : A) (l : list A) :
  Permutation (insertSorted cmp x l) (x :: l).
Proof.
  induction l as [|y l IH]; simpl; auto.
  destruct (cmp x y <? 0); auto.
  rewrite IH. apply perm_swap.
Qed.

Lemma sortBy_Permutation (l : list A) : Permutation (sortBy cmp l) l.
Proof.
  unfold sortBy.
  assert (forall acc, Permutation (fold_left (fun acc x => insertSorted cmp x acc)
                                             l acc) (acc ++ l)) as H.
  { induction l as [|x l IH]; intros acc; simpl.
    - rewrite app_nil_r. reflexivity.
    - rewrite IH, insertSorted_Permutation. simpl.
      apply Permutation_middle. }
  apply (H []).
Qed.

Lemma insertSorted_keySorted (x : A) (l : list A) :
  keySorted key l -> keySorted key (insertSorted cmp x l).
Proof.
  induction l as [|y l IH]; simpl; intros H.
  - split; constructor.
  - destruct H as [Hy Hl]. rewrite cmp_key.
    destruct (Z.ltb_spec (key x - key y) 0) as [Hlt|Hge]; simpl.
    + split; [|split; auto]. constructor; [lia|].
      eapply Forall_impl; [exact Hy|]. simpl. intros; lia.
    + split; [|apply IH, Hl].
      rewrite (insertSorted_Permutation x l). constructor; [lia|exact Hy].
Qed.

Lemma sortBy_keySorted (l : list A) : keySorted key (sortBy cmp l).
Proof.
  unfold sortBy.
  assert (forall acc, keySorted key acc ->
                      keySorted key (fold_left (fun acc x => insertSorted cmp x acc)
                                           l acc)) as H.
  { induction l as [|x l IH]; intros acc Hacc; simpl; auto.
    apply IH, insertSorted_keySorted, Hacc. }
  apply H. exact I.
Qed.

(** Stability: among equal keys the order of the input is kept. *)
Lemma insertSorted_stable (k : Z) (x : A) (l : list A) :
  keySorted key l ->
  List.filter (fun a => key a =? k) (insertSorted cmp x l)
  = List.filter (fun a => key a =? k) l
    ++ (if key x =? k then [x] else []).
Proof.
  induction l as [|y l IH]; simpl; intros H.
  - destruct (key x =? k); reflexivity.
  - destruct H as [Hy Hl]. rewrite cmp_key.
    destruct (Z.ltb_spec (key x - key y) 0) as [Hlt|Hge]; simpl.
    + destruct (Z.eqb_spec (key x) k) as [Hx|Hx].
      * assert (List.filter (fun a => key a =? k) l = []) as Hnone.
        { clear IH Hl. induction l as [|b l IHl]; simpl; auto.
          apply Forall_cons in Hy. destruct Hy as [Hb Hy].
          rewrite (proj2 (Z.eqb_neq (key b) k)) by lia. auto. }
        rewrite (proj2 (Z.eqb_neq (key y) k)) by lia.
        rewrite Hnone. reflexivity.
      * rewrite app_nil_r. reflexivity.
    + rewrite (IH Hl). destruct (key y =? k); reflexivity.
Qed.

Lemma sortBy_stable (k : Z) (l : list A) :
  List.filter (fun a => key a =? k) (sortBy cmp l)
  = List.filter (fun a => key a =? k) l.
Proof.
  unfold sortBy.
  assert (forall acc,
             keySorted key acc ->
             List.filter (fun a => key a =? k)
                         (fold_left (fun acc x => insertSorted cmp x acc) l acc)
             = List.filter (fun a => key a =? k) acc
               ++ List.filter (fun a => key a =? k) l) as H.
  { induction l as [|x l IH]; intros acc Hacc; simpl.
    - rewrite app_nil_r. reflexivity.
    - rewrite (IH _ (insertSorted_keySorted x acc Hacc)).
      rewrite (insertSorted_stable k x acc Hacc), <- app_assoc.
      destruct (key x =? k); reflexivity. }
  apply (H []). exact I.
Qed.
End SortByKey.

Lemma keySorted_lookup {A : Type} (key : A -> Z) (l : list A) :
  keySorted key l ->
  forall (i j : nat) (a b : A),
    (i < j)%nat -> l !! i = Some a -> l !! j = Some b -> key a <= key b.
Proof.
  induction l as [|x l IH]; simpl; intros H i j a b Hij Hi Hj.
  - rewrite lookup_nil in Hi. discriminate.
  - destruct H as [Hx Hl]. destruct j as [|j]; [lia|]. simpl in Hj.
    destruct i as [|i]; simpl in Hi.
    + injection Hi as <-. rewrite Forall_forall in Hx. apply Hx.
      eapply list_elem_of_lookup_2; eauto.
    + apply (IH Hl i j); auto. lia.
Qed.

Lemma sortedItems_Permutation (its : list Item) :
  Permutation (sortedItems its) its.
Proof. apply sortBy_Permutation. Qed.

(** X12. The batch is processed in the order of [sortedItems]: the same
    items, by priority from the highest to the lowest, and items of equal
    priority in the order of the request. *)
Theorem sortedItems_order (its : list Item) :
  Permutation (sortedItems its) its
  /\ (forall (i j : nat) (a b : Item),
         (i < j)%nat ->
         sortedItems its !! i = Some a -> sortedItems its !! j = Some b ->
         priority b <= priority a)
  /\ (forall k,
         List.filter (fun a => priority a =? k) (sortedItems its)
         = List.filter (fun a => priority a =? k) its).
Proof.
  unfold sortedItems.
  set (cmp := fun a b : Item => priority b - priority a).
  set (key := fun a : Item => - priority a).
  assert (forall a b, cmp a b = key a - key b) as Hck
      by (intros; unfold cmp, key; lia).
  split; [apply sortBy_Permutation|]. split.
  - intros i j a b Hij Hi Hj.
    pose proof (keySorted_lookup key _ (sortBy_keySorted cmp key Hck its)
                  i j a b Hij Hi Hj) as H.
    unfold key in H. lia.
  - intros k. pose proof (sortBy_stable cmp key Hck (- k) its) as H.
    assert (forall l : list Item,
               List.filter (fun a => key a =? - k) l
               = List.filter (fun a => priority a =? k) l) as Hf.
    { intros l. apply List.filter_ext. intros a. unfold key.
      destruct (Z.eqb_spec (priority a) k), (Z.eqb_spec (- priority a) (- k));
        auto; lia. }
    rewrite <- !Hf. exact H.
Qed.

(** [L] before [H] in the request, [H] before [L] in the pass. *)
Lemma sortedItems_order_witness :
  priority Scenario.L <= priority Scenario.H.
Proof.
  apply (proj1 (proj2 (sortedItems_order [Scenario.L; Scenario.H]))
           0%nat 1%nat Scenario.H Scenario.L);
    [lia|reflexivity|reflexivity].
Defined.

(** X13. The occupants a rearrangement considers for eviction are the
    records of the container that the database knows with a priority
    strictly below the item's, each as often as it occurs, from the
    lowest database priority to the highest, ties in the order of the
    container's list; an occupant the database does not know is never
    considered. *)
Theorem eviction_candidates (d : Database) (item : Item) (c : Container) :
  (forall r,
      In r (lowPriorityItems d item c)
      <-> In r (items c)
          /\ exists dbItem,
               db.getItem d (placedId r) = Some dbItem
               /\ priority dbItem < priority item)
  /\ (exists l, Permutation (lowPriorityItems d item c) l
                /\ sublist l (items c))
  /\ (forall (i j : nat) (a b : PlacedItem),
         (i < j)%nat ->
         lowPriorityItems d item c !! i = Some a ->
         lowPriorityItems d item c !! j = Some b ->
         dbPriority d (placedId a) <= dbPriority d (placedId b))
  /\ (Forall (fun r => db.getItem d (placedId r) = None) (items c) ->
      lowPriorityItems d item c = []).
Proof.
  unfold lowPriorityItems.
  set (cmp := fun a b : PlacedItem =>
                dbPriority d (placedId a) - dbPriority d (placedId b)).
  set (key := fun a : PlacedItem => dbPriority d (placedId a)).
  set (f := fun containerItem : PlacedItem =>
              match db.getItem d (placedId containerItem) with
              | Some dbItem => priority dbItem <? priority item
              | None => false
              end).
  assert (forall a b, cmp a b = key a - key b) as Hck by reflexivity.
  pose proof (sortBy_Permutation cmp (List.filter f (items c))) as Hperm.
  split; [|split; [|split]].
  - intros r. split.
    + intros Hin. apply (Permutation_in _ Hperm) in Hin.
      apply List.filter_In in Hin. destruct Hin as [Hin Hf].
      split; [exact Hin|]. unfold f in Hf.
      destruct (db.getItem d (placedId r)) as [dbItem|]; [|discriminate].
      exists dbItem. split; [reflexivity|]. apply Z.ltb_lt, Hf.
    + intros [Hin (dbItem & Hget & Hlt)].
      apply (Permutation_in _ (Permutation_sym Hperm)).
      apply List.filter_In. split; [exact Hin|]. unfold f. rewrite Hget.
      apply Z.ltb_lt, Hlt.
  - exists (List.filter f (items c)). split; [exact Hperm|].
    clear. induction (items c) as [|x l IH]; simpl; [constructor|].
    destruct (f x); [apply sublist_skip|apply sublist_cons]; exact IH.
  - intros i j a b Hij Hi Hj.
    exact (keySorted_lookup key _
             (sortBy_keySorted cmp key Hck (List.filter f (items c)))
             i j a b Hij Hi Hj).
  - intros Hnone.
    assert (List.filter f (items c) = []) as ->; [|reflexivity].
    clear Hperm. induction (items c) as [|x l IH]; simpl; auto.
    inversion Hnone as [|? ? Hx Hl]; subst. unfold f at 1. rewrite Hx.
    apply IH, Hl.
Qed.

(** The unit container with [L] for the unknown [H]; the database that
    knows nothing of the occupants. *)
Lemma eviction_candidates_witness :
  lowPriorityItems Scenario.dbWithX Scenario.H Scenario.unitWithL = [].
Proof.
  apply (proj2 (proj2 (proj2
           (eviction_candidates Scenario.dbWithX Scenario.H
              Scenario.unitWithL)))).
  repeat constructor.
Defined.



(** ** The first pass of a batch placement *)

Lemma placeFirstFit_Some item candidates store pl store' :
  placeFirstFit item candidates store = Some (pl, store') ->
  exists i c pos,
    In i candidates /\ store !! i = Some c
    /\ findPositionInContainer item c = Some pos
    /\ pl = mkPlacement (itemId item) (containerId c) pos
    /\ store' = <[i := with_items c (items c ++ [mkPlaced item pos])]> store.
Proof.
  induction candidates as [|i rest IH]; simpl; [discriminate|].
  destruct (store !! i) as [c|] eqn:Ei.
  - destruct (findPositionInContainer item c) as [pos|] eqn:Ef.
    + intros [= <- <-]. exists i, c, pos. repeat split; auto.
      rewrite (found_position_addItem item c pos Ef). reflexivity.
    + intros H. destruct (IH H) as (j & c' & pos & Hin & Hrest).
      exists j, c', pos. auto.
  - intros H. destruct (IH H) as (j & c' & pos & Hin & Hrest).
    exists j, c', pos. auto.
Qed.

Lemma placeFirstFit_None item candidates store :
  placeFirstFit item candidates store = None ->
  forall i c, In i candidates -> store !! i = Some c ->
              findPositionInContainer item c = None.
Proof.
  induction candidates as [|j rest IH]; simpl; [contradiction|].
  intros H i c [->|Hin] Hi.
  - rewrite Hi in H. destruct (findPositionInContainer item c); auto.
    discriminate.
  - destruct (store !! j) as [c'|]; [|eauto].
    destruct (findPositionInContainer item c'); [discriminate|eauto].
Qed.

Lemma indicesWhere_In (p : Container -> bool) (store : list Container)
  (i : nat) (c : Container) :
  store !! i = Some c -> p c = true -> In i (indicesWhere p store).
Proof.
  intros Hi Hp. unfold indicesWhere. apply List.filter_In. split.
  - apply in_seq. apply lookup_lt_Some in Hi. lia.
  - rewrite Hi. exact Hp.
Qed.

(** The two outcomes of the body of the first pass. *)
Lemma placeOne_cases (st : PassState) (item : Item) :
  (exists i c pos,
      p_store st !! i = Some c
      /\ findPositionInContainer item c = Some pos
      /\ placeOne st item
         = mkPassState
             (<[i := with_items c (items c ++ [mkPlaced item pos])]>
                (p_store st))
             (p_placements st
                ++ [mkPlacement (itemId item) (containerId c) pos])
             (p_unplaced st))
  \/ ((forall i c, p_store st !! i = Some c ->
                   findPositionInContainer item c = None)
      /\ placeOne st item
         = mkPassState (p_store st) (p_placements st)
                       (p_unplaced st ++ [item])).
Proof.
  unfold placeOne.
  destruct (placeFirstFit item
              (indicesWhere
                 (fun c => String.eqb (zone c) (preferredZone item))
                 (p_store st)) (p_store st)) as [[pl s]|] eqn:E1.
  - left. apply placeFirstFit_Some in E1.
    destruct E1 as (i & c & pos & _ & Hi & Hf & -> & ->).
    exists i, c, pos. auto.
  - destruct (placeFirstFit item
                (indicesWhere
                   (fun c => negb (String.eqb (zone c) (preferredZone item)))
                   (p_store st)) (p_store st)) as [[pl s]|] eqn:E2.
    + left. apply placeFirstFit_Some in E2.
      destruct E2 as (i & c & pos & _ & Hi & Hf & -> & ->).
      exists i, c, pos. auto.
    + right. split; [|reflexivity]. intros i c Hi.
      destruct (String.eqb (zone c) (preferredZone item)) eqn:Ez.
      * eapply (placeFirstFit_None _ _ _ E1); eauto.
        eapply indicesWhere_In; eauto.
      * eapply (placeFirstFit_None _ _ _ E2); eauto.
        eapply indicesWhere_In; eauto. simpl. rewrite Ez. reflexivity.
Qed.

Lemma firstPass_fold_partition (l : list Item) (st : PassState) :
  Permutation
    (map pl_itemId (p_placements (fold_left placeOne l st))
       ++ map itemId (p_unplaced (fold_left placeOne l st)))
    (map pl_itemId (p_placements st) ++ map itemId (p_unplaced st)
       ++ map itemId l).
Proof.
  revert st. induction l as [|item l IH]; intros st; simpl.
  - rewrite app_nil_r. reflexivity.
  - rewrite IH.
    destruct (placeOne_cases st item) as [(i & c & pos & _ & _ & ->)|[_ ->]];
      simpl.
    + rewrite map_app. simpl. rewrite <- app_assoc. simpl.
      apply Permutation_app_head. apply Permutation_middle.
    + rewrite map_app. simpl. rewrite <- app_assoc. reflexivity.
Qed.

Lemma firstPass_ids (its : list Item) (containers : list Container) :
  Permutation
    (map pl_itemId (p_placements (firstPass its containers))
       ++ map itemId (p_unplaced (firstPass its containers)))
    (map itemId its).
Proof.
  unfold firstPass. rewrite firstPass_fold_partition. simpl.
  apply Permutation_map, sortedItems_Permutation.
Qed.

Lemma firstPass_unplaced_nowhere (its : list Item)
  (containers : list Container) :
  Forall
    (fun u =>
       Forall (fun c => findPositionInContainer u c = None)
              (p_store (firstPass its containers)))
    (p_unplaced (firstPass its containers)).
Proof.
  unfold firstPass.
  assert (forall l st,
             Forall (fun u =>
                       Forall (fun c => findPositionInContainer u c = None)
                              (p_store st)) (p_unplaced st) ->
             Forall (fun u =>
                       Forall (fun c => findPositionInContainer u c = None)
                              (p_store (fold_left placeOne l st)))
                    (p_unplaced (fold_left placeOne l st))) as Hgen.
  { induction l as [|item l IH]; intros st Hst; simpl; auto.
    apply IH.
    destruct (placeOne_cases st item)
      as [(i & c & pos & Hi & Hf & ->)|[Hnone ->]]; simpl.
    - eapply Forall_impl; [exact Hst|]. simpl. intros u Hu.
      apply Forall_insert; auto.
      assert (findPositionInContainer u c = None) as Huc
          by (eapply (proj1 (Forall_lookup _ _) Hu); eauto).
      apply (findPosition_addItem_None c item pos) in Huc.
      rewrite (found_position_addItem item c pos Hf) in Huc. exact Huc.
    - apply Forall_app. split; auto. constructor; [|constructor].
      apply Forall_lookup. exact Hnone. }
  apply Hgen. simpl. constructor.
Qed.

(** X15. The first pass sorts every item of the batch into one of two
    lists: it gets one placement or it is left for the rearrangement.
    The ids of the placements together with the ids of the unplaced
    items are the ids of the batch, and an unplaced item has no position
    in any working container at the end of the pass. *)
Theorem firstPass_partition (its : list Item) (containers : list Container) :
  Permutation
    (map pl_itemId (p_placements (firstPass its containers))
       ++ map itemId (p_unplaced (firstPass its containers)))
    (map itemId its)
  /\ (length (p_placements (firstPass its containers))
      + length (p_unplaced (firstPass its containers))
      = length its)%nat
  /\ Forall
       (fun u =>
          Forall (fun c => findPositionInContainer u c = None)
                 (p_store (firstPass its containers)))
       (p_unplaced (firstPass its containers)).
Proof.
  pose proof (firstPass_ids its containers) as Hperm.
  split; [exact Hperm|]. split; [|apply firstPass_unplaced_nowhere].
  apply Permutation_length in Hperm.
  rewrite length_app, !length_map in Hperm. exact Hperm.
Qed.

Lemma disjointAlongAnAxis_sym (p q : Position) :
  disjointAlongAnAxis p q -> disjointAlongAnAxis q p.
Proof. unfold disjointAlongAnAxis. tauto. Qed.

Lemma PlacementsDisjoint_snoc (l : list Placement) (x : Placement) :
  PlacementsDisjoint l ->
  Forall (fun p => pl_containerId p = pl_containerId x ->
                   disjointAlongAnAxis (pl_position p) (pl_position x)) l ->
  PlacementsDisjoint (l ++ [x]).
Proof.
  intros Hl Hx i j p q Hij Hi Hj Hsame.
  rewrite Forall_lookup in Hx.
  assert (forall (k : nat) (y : Placement),
             (l ++ [x]) !! k = Some y ->
             (k < length l)%nat /\ l !! k = Some y
             \/ k = length l /\ y = x) as Hcases.
  { intros k y Hk. destruct (decide (k < length l)%nat) as [Hlt|Hge].
    - left. rewrite lookup_app_l in Hk by exact Hlt. auto.
    - right. pose proof (lookup_lt_Some _ _ _ Hk) as Hb.
      rewrite length_app in Hb. simpl in Hb.
      assert (k = length l) as -> by lia.
      rewrite lookup_app_r, Nat.sub_diag in Hk by lia.
      injection Hk as <-. auto. }
  destruct (Hcases i p Hi) as [[Hi1 Hi2]|[-> ->]],
           (Hcases j q Hj) as [[Hj1 Hj2]|[-> ->]].
  - eapply Hl; eauto.
  - eapply Hx; eauto.
  - apply disjointAlongAnAxis_sym. eapply Hx; eauto.
  - contradiction.
Qed.

Lemma containerIds_insert (store : list Container) (i : nat)
  (c c' : Container) :
  store !! i = Some c -> containerId c' = containerId c ->
  map containerId (<[i := c']> store) = map containerId store.
Proof.
  intros Hi Hid.
  change (map containerId (<[i := c']> store))
    with (containerId <$> <[i := c']> store).
  rewrite list_fmap_insert, Hid. apply list_insert_id.
  rewrite list_lookup_fmap, Hi. reflexivity.
Qed.

Lemma placementRecorded_append batch store i c l pl :
  store !! i = Some c ->
  placementRecorded batch store pl ->
  placementRecorded batch (<[i := with_items c (items c ++ l)]> store) pl.
Proof.
  intros Hi (i0 & c0 & r & Hi0 & Hid & Hr & Hrest).
  destruct (decide (i0 = i)) as [->|Hne].
  - rewrite Hi in Hi0. injection Hi0 as <-.
    exists i, (with_items c (items c ++ l)), r.
    rewrite list_lookup_insert_eq by (eapply lookup_lt_Some; eauto).
    split; [reflexivity|]. split; [exact Hid|]. split; [|exact Hrest].
    simpl. apply in_or_app. auto.
  - exists i0, c0, r. rewrite list_lookup_insert_ne by auto. auto.
Qed.

Lemma placeOne_valid (batch : list Item) (st : PassState) (item : Item) :
  In item batch ->
  NoDup (map containerId (p_store st)) ->
  PlacementsDisjoint (p_placements st) ->
  Forall (placementRecorded batch (p_store st)) (p_placements st) ->
  NoDup (map containerId (p_store (placeOne st item)))
  /\ PlacementsDisjoint (p_placements (placeOne st item))
  /\ Forall (placementRecorded batch (p_store (placeOne st item)))
            (p_placements (placeOne st item)).
Proof.
  intros Hin Hnd Hdis Hrec.
  destruct (placeOne_cases st item)
    as [(i & c & pos & Hi & Hf & ->)|[_ ->]]; simpl; [|auto].
  destruct (found_position_fits item c pos Hf) as [Hfit Hdims].
  pose proof Hfit as Hc. apply canFitItem_true in Hc. destruct Hc as [Hb Hall].
  split; [|split].
  - rewrite (containerIds_insert _ i c); auto.
  - apply PlacementsDisjoint_snoc; [exact Hdis|].
    eapply Forall_impl; [exact Hrec|]. simpl.
    intros pl (i0 & c0 & r & Hi0 & Hid & Hr & Hpos & _) Hsame.
    assert (i0 = i) as ->.
    { eapply (NoDup_lookup _ _ _ (containerId c) Hnd).
      - rewrite list_lookup_fmap, Hi0. simpl. congruence.
      - rewrite list_lookup_fmap, Hi. reflexivity. }
    rewrite Hi in Hi0. injection Hi0 as <-.
    rewrite Forall_forall in Hall. rewrite <- Hpos.
    apply itemsOverlap_false, Hall, list_elem_of_In, Hr.
  - apply Forall_app. split.
    + eapply Forall_impl; [exact Hrec|]. intros pl.
      apply placementRecorded_append, Hi.
    + constructor; [|constructor].
      exists i, (with_items c (items c ++ [mkPlaced item pos])),
        (mkPlaced item pos).
      rewrite list_lookup_insert_eq by (eapply lookup_lt_Some; eauto).
      simpl. split; [reflexivity|]. split; [reflexivity|].
      split; [apply in_or_app; right; left; reflexivity|].
      repeat (split; [reflexivity|]). split; [exact Hin|].
      split; [exact Hb|exact Hdims].
Qed.

Lemma firstPass_fold_valid (batch l : list Item) (st : PassState) :
  incl l batch ->
  NoDup (map containerId (p_store st)) ->
  PlacementsDisjoint (p_placements st) ->
  Forall (placementRecorded batch (p_store st)) (p_placements st) ->
  PlacementsDisjoint (p_placements (fold_left placeOne l st))
  /\ Forall (placementRecorded batch (p_store (fold_left placeOne l st)))
            (p_placements (fold_left placeOne l st)).
Proof.
  revert st. induction l as [|item l IH]; intros st Hincl Hnd Hdis Hrec;
    simpl; [auto|].
  destruct (placeOne_valid batch st item) as (H1 & H2 & H3); auto.
  { apply Hincl. left. reflexivity. }
  apply IH; auto. intros x Hx. apply Hincl. right. exact Hx.
Qed.

(** X16. The placements of the first pass do not collide: two of them
    into the same container have boxes that are disjoint along an axis.
    Each is the placement of an item of the batch into a working
    container, at a box that has the item's dimensions and lies within
    that container, and the container holds the record.  When no item
    is left unplaced, these placements are the whole result, with the
    success flag set and no rearrangement step. *)
Theorem firstPass_placements_valid (d : Database) (its : list Item)
  (containers : list Container) :
  PlacementsDisjoint (p_placements (firstPass its containers))
  /\ Forall (placementRecorded its (p_store (firstPass its containers)))
            (p_placements (firstPass its containers))
  /\ (p_unplaced (firstPass its containers) = [] ->
      findOptimalPlacement d its containers
      = mkPlacementResult true (p_placements (firstPass its containers)) []).
Proof.
  destruct (firstPass_fold_valid its (sortedItems its)
              (mkPassState (mapValues (buildContainerMap containers)) [] []))
    as [H1 H2].
  - intros x Hx.
    apply (Permutation_in _ (sortedItems_Permutation its)), Hx.
  - apply buildContainerMap_NoDup.
  - intros i j p q _ Hi. simpl in Hi. rewrite lookup_nil in Hi. discriminate.
  - constructor.
  - split; [exact H1|]. split; [exact H2|].
    intros Hnone. unfold findOptimalPlacement, findOptimalPlacementRun.
    rewrite Hnone. simpl. rewrite app_nil_r. reflexivity.
Qed.

(** The batch [L1], [L2], [H] over the three empty containers leaves [H]
    unplaced; without [H] every item is placed. *)
Lemma firstPass_placements_valid_witness :
  findOptimalPlacement Scenario.dbWithL1L2
    [Scenario.cubeIn "A" "L1" 1 10; Scenario.cubeIn "B" "L2" 1 10]
    [Scenario.emptyCA; Scenario.emptyCB; Scenario.emptyCD]
  = mkPlacementResult true
      (p_placements
         (firstPass
            [Scenario.cubeIn "A" "L1" 1 10; Scenario.cubeIn "B" "L2" 1 10]
            [Scenario.emptyCA; Scenario.emptyCB; Scenario.emptyCD]))
      [].
Proof.
  apply (proj2 (proj2 (firstPass_placements_valid Scenario.dbWithL1L2
           [Scenario.cubeIn "A" "L1" 1 10; Scenario.cubeIn "B" "L2" 1 10]
           [Scenario.emptyCA; Scenario.emptyCB; Scenario.emptyCD]))).
  reflexivity.
Defined.

(** ** The rearrangement transcript *)

Lemma EvictionTranscript_app (n : Z) (l l' : list RearrangementStep) :
  EvictionTranscript n l ->
  EvictionTranscript (n + Z.of_nat (length l)) l' ->
  EvictionTranscript n (l ++ l').
Proof.
  induction 1 as [n|n low item c lowPos newPos c' pos' rest Hc Hrest IH];
    intros Hl'.
  - replace (n + Z.of_nat (length (@nil RearrangementStep))) with n in Hl'
      by (simpl; lia).
    exact Hl'.
  - rewrite <- app_assoc.
    constructor; [exact Hc|]. apply IH.
    rewrite length_app in Hl'. simpl in Hl'.
    replace (n + 3 + Z.of_nat (length rest))
      with (n + Z.of_nat (S (S (S (length rest))))) by lia.
    exact Hl'.
Qed.

Lemma EvictionTranscript_length (n : Z) (l : list RearrangementStep) :
  EvictionTranscript n l ->
  exists k, length l = (3 * k)%nat
            /\ map ra_step l
               = map (fun j => n + Z.of_nat j) (seq 0 (length l)).
Proof.
  induction 1 as [n|n low item c lowPos newPos c' pos' rest Hc Hrest IH].
  - exists O. auto.
  - destruct IH as (k & Hk & Hsteps). exists (S k). split.
    + simpl. lia.
    + simpl. rewrite Hsteps. f_equal; [lia|]. f_equal. f_equal.
      rewrite <- !seq_shift, !map_map. apply map_ext. intros j. lia.
Qed.

(** The outcomes of the search for a new home. *)
Lemma rehome_cases low cid others st :
  rehome low cid others st = (false, st)
  \/ exists j other pos,
       r_store st !! j = Some other
       /\ containerId other <> cid
       /\ findPositionInContainer (placed low) other = Some pos
       /\ rehome low cid others st
          = (true,
             mkRState
               (<[j := with_items other
                         (items other ++ [mkPlaced (placed low) pos])]>
                  (r_store st))
               (r_placements st)
               (r_rearrangements st
                  ++ [mkRearrangementStep (r_step st) place (placedId low)
                        None None (Some (containerId other)) (Some pos)])
               (r_step st + 1)).
Proof.
  induction others as [|j rest IH]; simpl; [auto|].
  destruct (r_store st !! j) as [other|] eqn:Ej; [|exact IH].
  destruct (String.eqb_spec (containerId other) cid) as [Heq|Hne];
    [exact IH|].
  destruct (findPositionInContainer (placed low) other) as [pos|] eqn:Ef;
    [|exact IH].
  right. exists j, other, pos. repeat split; auto.
  rewrite (found_position_addItem _ _ _ Ef). reflexivity.
Qed.

Lemma evictLoop_transcript item i sorted lows st :
  EvictionTranscript 1 (r_rearrangements st) ->
  r_step st = 1 + Z.of_nat (length (r_rearrangements st)) ->
  (length (r_rearrangements st) <= 3 * length (r_placements st))%nat ->
  EvictionTranscript 1
    (r_rearrangements (evictLoop item i sorted lows st))
  /\ r_step (evictLoop item i sorted lows st)
     = 1 + Z.of_nat
             (length (r_rearrangements (evictLoop item i sorted lows st)))
  /\ (length (r_rearrangements (evictLoop item i sorted lows st))
      <= 3 * length (r_placements (evictLoop item i sorted lows st)))%nat.
Proof.
  revert st. induction lows as [|low rest IH]; intros st Het Hstep Hlen;
    simpl; [auto|].
  destruct (r_store st !! i) as [c0|] eqn:Ei; [|auto].
  destruct (findPositionInContainer item _) as [newPosition|];
    [|apply IH; auto].
  match goal with
  | |- context [rehome ?l ?c ?s ?t] =>
      destruct (rehome_cases l c s t)
        as [Hr|(j & other & pos & Hj & Hne & Hf & Hr)];
      rewrite Hr; clear Hr
  end.
  - (* no new home: back into the container at slot i *)
    cbn [r_store].
    rewrite list_lookup_insert_eq by (eapply lookup_lt_Some; eauto).
    cbn [r_rearrangements r_step r_placements].
    rewrite <- app_assoc. cbn [app].
    split; [|split].
    + apply EvictionTranscript_app; [exact Het|].
      rewrite <- Hstep.
      replace (r_step st + 2) with (r_step st + 2) by reflexivity.
      match goal with
      | |- EvictionTranscript ?n [?s1; ?s2; ?s3] =>
          change [s1; s2; s3]
            with (evictionSteps n (ra_itemId s1) (ra_itemId s2)
                    (containerId (snd (removeItem c0 (placedId low))))
                    (position low) newPosition
                    (containerId
                       (snd (addItem (snd (removeItem c0 (placedId low)))
                                     item newPosition)))
                    (position low) ++ [])
      end.
      constructor; [auto|constructor].
    + rewrite length_app. simpl. lia.
    + rewrite !length_app. simpl. lia.
  - (* a new home in another container *)
    cbn [r_rearrangements r_step r_placements].
    rewrite <- app_assoc. cbn [app].
    split; [|split].
    + apply EvictionTranscript_app; [exact Het|].
      rewrite <- Hstep.
      match goal with
      | |- EvictionTranscript ?n [?s1; ?s2; ?s3] =>
          change [s1; s2; s3]
            with (evictionSteps n (ra_itemId s1) (ra_itemId s2)
                    (containerId (snd (removeItem c0 (placedId low))))
                    (position low) newPosition
                    (containerId other) pos ++ [])
      end.
      constructor; [|constructor].
      intros Heq. exfalso. apply Hne. rewrite Heq.
      unfold addItem. destruct (canFitItem _ item newPosition); reflexivity.
    + rewrite length_app. simpl. lia.
    + rewrite !length_app. simpl. lia.
Qed.

Lemma containerLoop_transcript d item sorted todo st :
  EvictionTranscript 1 (r_rearrangements st) ->
  r_step st = 1 + Z.of_nat (length (r_rearrangements st)) ->
  (length (r_rearrangements st) <= 3 * length (r_placements st))%nat ->
  EvictionTranscript 1
    (r_rearrangements (containerLoop d item sorted todo st))
  /\ r_step (containerLoop d item sorted todo st)
     = 1 + Z.of_nat
             (length (r_rearrangements (containerLoop d item sorted todo st)))
  /\ (length (r_rearrangements (containerLoop d item sorted todo st))
      <= 3 * length (r_placements (containerLoop d item sorted todo st)))%nat.
Proof.
  revert st. induction todo as [|i rest IH]; intros st Het Hstep Hlen;
    simpl; [auto|].
  destruct (r_store st !! i) as [c|] eqn:Ei; [|auto].
  destruct (findPositionInContainer item c).
  - simpl. rewrite length_app. simpl. repeat split; auto. lia.
  - destruct (evictLoop_transcript item i sorted
                (lowPriorityItems d item c) st Het Hstep Hlen)
      as (H1 & H2 & H3).
    apply IH; auto.
Qed.

Lemma rearrangeRun_transcript d unplaced store :
  EvictionTranscript 1 (r_rearrangements (rearrangeRun d unplaced store))
  /\ (length (r_rearrangements (rearrangeRun d unplaced store))
      <= 3 * length (r_placements (rearrangeRun d unplaced store)))%nat.
Proof.
  unfold rearrangeRun.
  assert (forall st,
             EvictionTranscript 1 (r_rearrangements st) ->
             r_step st = 1 + Z.of_nat (length (r_rearrangements st)) ->
             (length (r_rearrangements st)
              <= 3 * length (r_placements st))%nat ->
             EvictionTranscript 1
               (r_rearrangements (fold_left (rearrangeItem d) unplaced st))
             /\ (length (r_rearrangements
                           (fold_left (rearrangeItem d) unplaced st))
                 <= 3 * length (r_placements
                                  (fold_left (rearrangeItem d) unplaced st)))%nat)
    as Hgen.
  { induction unplaced as [|item rest IH]; intros st Het Hstep Hlen; simpl;
      [auto|].
    destruct (containerLoop_transcript d item (sortedContainers (r_store st))
                (sortedContainers (r_store st)) st Het Hstep Hlen)
      as (H1 & H2 & H3).
    apply IH; auto. }
  apply Hgen; simpl; auto. constructor.
Qed.

(** X17. The rearrangement transcript is a sequence of evictions, three
    steps each and numbered consecutively from 1: the occupant is removed
    from its container, the unplaced item is placed into that container,
    and the occupant is placed, into another container or, at the
    position it had, into the one it left.  Every eviction comes with a
    placement of the item it was made for.  The same holds for the
    rearrangements a batch placement returns. *)
Theorem rearrangement_transcript (d : Database) :
  (forall unplacedItems store,
      EvictionTranscript 1
        (snd (rearrangeForUnplacedItems d unplacedItems store))
      /\ (exists k,
             length (snd (rearrangeForUnplacedItems d unplacedItems store))
             = (3 * k)%nat
             /\ (k <= length
                        (fst (rearrangeForUnplacedItems d unplacedItems
                                store)))%nat)
      /\ map ra_step (snd (rearrangeForUnplacedItems d unplacedItems store))
         = map (fun j => 1 + Z.of_nat j)
               (seq 0 (length (snd (rearrangeForUnplacedItems d
                                      unplacedItems store)))))
  /\ (forall its containers,
         EvictionTranscript 1
           (rearrangements (findOptimalPlacement d its containers))).
Proof.
  split.
  - intros unplacedItems store. unfold rearrangeForUnplacedItems. simpl.
    destruct (rearrangeRun_transcript d unplacedItems store) as [Het Hlen].
    split; [exact Het|].
    destruct (EvictionTranscript_length _ _ Het) as (k & Hk & Hsteps).
    split; [|exact Hsteps]. exists k. split; [exact Hk|]. lia.
  - intros its containers. unfold findOptimalPlacement, findOptimalPlacementRun.
    simpl.
    destruct (0 <? length (p_unplaced (firstPass its containers)))%nat; simpl.
    + apply rearrangeRun_transcript.
    + constructor.
Qed.

(** ** Rearrangement without evictable occupants *)

Lemma lowPriorityItems_unknown d item c :
  Forall (fun r => db.getItem d (placedId r) = None) (items c) ->
  lowPriorityItems d item c = [].
Proof.
  intros Hnone. unfold lowPriorityItems.
  assert (List.filter
            (fun containerItem =>
               match db.getItem d (placedId containerItem) with
               | Some dbItem => priority dbItem <? priority item
               | None => false
               end) (items c) = []) as ->; [|reflexivity].
  induction (items c) as [|x l IH]; simpl; auto.
  inversion Hnone as [|? ? Hx Hl]; subst. rewrite Hx. apply IH, Hl.
Qed.

Lemma OccupantsUnknown_placedIds d store :
  OccupantsUnknown d store <-> Unknown d (placedIds store).
Proof.
  unfold OccupantsUnknown, Unknown, placedIds.
  induction store as [|c store IH]; simpl.
  - split; constructor.
  - rewrite Forall_cons, Forall_app, IH, Forall_map. reflexivity.
Qed.

Lemma placedIds_append (store : list Container) (i : nat) (c : Container)
  (r : PlacedItem) :
  store !! i = Some c ->
  Permutation
    (placedIds (<[i := with_items c (items c ++ [r])]> store))
    (placedIds store ++ [placedId r]).
Proof.
  unfold placedIds. revert i. induction store as [|c0 store IH]; intros i Hi.
  - rewrite lookup_nil in Hi. discriminate.
  - destruct i as [|i]; simpl in *.
    + injection Hi as ->. rewrite map_app. simpl.
      rewrite <- !app_assoc. apply Permutation_app_head.
      simpl. apply Permutation_cons_append.
    + rewrite (IH i Hi), app_assoc. reflexivity.
Qed.

(** With no occupant known to the database, the loop over the
    containers is a first fit. *)
Lemma containerLoop_quiet d item sorted todo st :
  OccupantsUnknown d (r_store st) ->
  (containerLoop d item sorted todo st = st
   /\ forall i c, In i todo -> r_store st !! i = Some c ->
                  findPositionInContainer item c = None)
  \/ exists i c pos,
       In i todo /\ r_store st !! i = Some c
       /\ findPositionInContainer item c = Some pos
       /\ containerLoop d item sorted todo st
          = mkRState
              (<[i := with_items c (items c ++ [mkPlaced item pos])]>
                 (r_store st))
              (r_placements st
                 ++ [mkPlacement (itemId item) (containerId c) pos])
              (r_rearrangements st) (r_step st).
Proof.
  intros Hocc. induction todo as [|i rest IH]; simpl.
  - left. split; [reflexivity|]. intros i c [].
  - destruct (r_store st !! i) as [c|] eqn:Ei.
    + destruct (findPositionInContainer item c) as [pos|] eqn:Ef.
      * right. exists i, c, pos. repeat split; auto.
        unfold addItem.
        destruct (findPosition_Some _ _ _ Ef) as (x & y & z & -> & -> & _).
        reflexivity.
      * rewrite lowPriorityItems_unknown
          by (eapply (proj1 (Forall_lookup _ _) Hocc); eauto).
        simpl. destruct IH as [[Heq Hnone]|(j & c' & pos & Hin & Hrest)].
        -- left. split; [exact Heq|]. intros j c' [<-|Hin] Hj; eauto.
           congruence.
        -- right. exists j, c', pos. auto.
    + destruct IH as [[Heq Hnone]|(j & c' & pos & Hin & Hrest)].
      * left. split; [exact Heq|]. intros j c' [<-|Hin] Hj; eauto.
        congruence.
      * right. exists j, c', pos. auto.
Qed.

Lemma OccupantsUnknown_append d store i c r :
  OccupantsUnknown d store -> store !! i = Some c ->
  db.getItem d (placedId r) = None ->
  OccupantsUnknown d (<[i := with_items c (items c ++ [r])]> store).
Proof.
  intros Hocc Hi Hr. apply Forall_insert; [exact Hocc|]. simpl.
  apply Forall_app. split; [|repeat constructor; exact Hr].
  eapply (proj1 (Forall_lookup _ _) Hocc); eauto.
Qed.

Lemma rearrange_fold_quiet d unplaced st :
  OccupantsUnknown d (r_store st) -> Unknown d (map itemId unplaced) ->
  r_rearrangements (fold_left (rearrangeItem d) unplaced st)
  = r_rearrangements st
  /\ OccupantsUnknown d (r_store (fold_left (rearrangeItem d) unplaced st))
  /\ exists l,
       r_placements (fold_left (rearrangeItem d) unplaced st)
       = r_placements st ++ l
       /\ sublist (map pl_itemId l) (map itemId unplaced)
       /\ Permutation
            (placedIds (r_store (fold_left (rearrangeItem d) unplaced st)))
            (placedIds (r_store st) ++ map pl_itemId l).
Proof.
  revert st. induction unplaced as [|item rest IH]; intros st Hocc Hunk;
    simpl.
  - split; [reflexivity|]. split; [exact Hocc|]. exists [].
    rewrite !app_nil_r. repeat split; auto.
  - inversion Hunk as [|? ? Hitem Hrest]; subst.
    assert (rearrangeItem d st item = st
            \/ exists i c pos,
                 r_store st !! i = Some c
                 /\ rearrangeItem d st item
                    = mkRState
                        (<[i := with_items c
                                  (items c ++ [mkPlaced item pos])]>
                           (r_store st))
                        (r_placements st
                           ++ [mkPlacement (itemId item) (containerId c) pos])
                        (r_rearrangements st) (r_step st)) as Hstep.
    { unfold rearrangeItem.
      destruct (containerLoop_quiet d item (sortedContainers (r_store st))
                  (sortedContainers (r_store st)) st Hocc)
        as [[Heq _]|(i & c & pos & _ & Hi & _ & Heq)]; [left; exact Heq|].
      right. exists i, c, pos. auto. }
    destruct Hstep as [->|(i & c & pos & Hi & ->)].
    + destruct (IH st Hocc Hrest) as (H1 & H2 & l & H3 & H4 & H5).
      split; [exact H1|]. split; [exact H2|]. exists l.
      split; [exact H3|]. split; [apply sublist_cons, H4|exact H5].
    + match goal with
      | |- context [fold_left _ rest ?s] =>
          destruct (IH s) as (H1 & H2 & l & H3 & H4 & H5)
      end.
      { simpl. apply OccupantsUnknown_append; auto. }
      { exact Hrest. }
      simpl in H1, H3, H5.
      split; [exact H1|]. split; [exact H2|].
      exists (mkPlacement (itemId item) (containerId c) pos :: l).
      split; [rewrite H3, <- app_assoc; reflexivity|].
      split; [simpl; apply sublist_skip, H4|].
      rewrite H5. simpl.
      rewrite (placedIds_append (r_store st) i c (mkPlaced item pos) Hi).
      rewrite <- app_assoc. reflexivity.
Qed.

(** X18. When the database knows neither an occupant of the containers
    nor an unplaced item, the rearrangement pass evicts nothing: it
    records no step, places each unplaced item at most once and in the
    order given, and the ids in the containers afterwards are those
    before together with the ids it placed. *)
Theorem quiet_rearrangement (d : Database) (unplacedItems : list Item)
  (store : list Container) :
  Unknown d (placedIds store) -> Unknown d (map itemId unplacedItems) ->
  snd (rearrangeForUnplacedItems d unplacedItems store) = []
  /\ sublist
       (map pl_itemId (fst (rearrangeForUnplacedItems d unplacedItems store)))
       (map itemId unplacedItems)
  /\ Permutation
       (placedIds (r_store (rearrangeRun d unplacedItems store)))
       (placedIds store
          ++ map pl_itemId
               (fst (rearrangeForUnplacedItems d unplacedItems store))).
Proof.
  intros Hocc Hunk. apply OccupantsUnknown_placedIds in Hocc.
  unfold rearrangeForUnplacedItems, rearrangeRun. simpl.
  destruct (rearrange_fold_quiet d unplacedItems (mkRState store [] [] 1)
              Hocc Hunk) as (H1 & _ & l & H3 & H4 & H5).
  simpl in H1, H3, H5. rewrite H1, H3. auto.
Qed.

(** [H] and [G] for the container [C1] that holds [A], with a database
    that knows none of them. *)
Lemma quiet_rearrangement_witness :
  snd (rearrangeForUnplacedItems Scenario.dbWithL1L2
         [Scenario.H; Scenario.G] [Scenario.C1withA])
  = [].
Proof.
  apply (quiet_rearrangement Scenario.dbWithL1L2 [Scenario.H; Scenario.G]
           [Scenario.C1withA]);
    repeat constructor.
Defined.

(** ** A batch of items the database does not know *)

Lemma rearrangeRun_nothing d unplaced store :
  OccupantsUnknown d store ->
  Forall (fun u => Forall (fun c => findPositionInContainer u c = None) store)
         unplaced ->
  rearrangeRun d unplaced store = mkRState store [] [] 1.
Proof.
  intros Hocc Hnone. unfold rearrangeRun.
  induction unplaced as [|u rest IH]; simpl; [reflexivity|].
  inversion Hnone as [|? ? Hu Hrest]; subst.
  assert (rearrangeItem d (mkRState store [] [] 1) u
          = mkRState store [] [] 1) as ->; [|exact (IH Hrest)].
  unfold rearrangeItem.
  destruct (containerLoop_quiet d u (sortedContainers store)
              (sortedContainers store) (mkRState store [] [] 1) Hocc)
    as [[Heq _]|(i & c & pos & _ & Hi & Hf & _)]; [exact Heq|].
  simpl in Hi. rewrite Forall_lookup in Hu. rewrite (Hu i c Hi) in Hf.
  discriminate.
Qed.

Lemma firstPass_occupants (its l : list Item) (st : PassState) :
  incl l its ->
  Forall (fun c => Forall (fun r => In (placed r) its) (items c))
         (p_store st) ->
  Forall (fun c => Forall (fun r => In (placed r) its) (items c))
         (p_store (fold_left placeOne l st)).
Proof.
  revert st. induction l as [|item l IH]; intros st Hincl Hst; simpl; auto.
  apply IH; [intros x Hx; apply Hincl; right; exact Hx|].
  destruct (placeOne_cases st item)
    as [(i & c & pos & Hi & _ & ->)|[_ ->]]; simpl; auto.
  apply Forall_insert; auto. simpl. apply Forall_app. split.
  - eapply (proj1 (Forall_lookup _ _) Hst); eauto.
  - repeat constructor. simpl. apply Hincl. left. reflexivity.
Qed.

Lemma firstPass_unplaced_incl (its l : list Item) (st : PassState) :
  incl l its ->
  Forall (fun u => In u its) (p_unplaced st) ->
  Forall (fun u => In u its) (p_unplaced (fold_left placeOne l st)).
Proof.
  revert st. induction l as [|item l IH]; intros st Hincl Hst; simpl; auto.
  apply IH; [intros x Hx; apply Hincl; right; exact Hx|].
  destruct (placeOne_cases st item)
    as [(i & c & pos & _ & _ & ->)|[_ ->]]; simpl; auto.
  apply Forall_app. split; auto. repeat constructor.
  apply Hincl. left. reflexivity.
Qed.

(** X19. For a batch of items whose ids the database does not know, the
    batch placement is the first pass alone: no rearrangement step, the
    placements of the first pass, and a success flag that is true exactly
    when no item was left unplaced.  With the flag true the placements
    carry the ids of the batch, one each; with the flag false some item
    of the batch has no position in any working container. *)
Theorem fresh_batch (d : Database) (its : list Item)
  (containers : list Container) :
  Unknown d (map itemId its) ->
  findOptimalPlacementRun d its containers
  = (mkPlacementResult
       (match p_unplaced (firstPass its containers) with
        | [] => true
        | _ :: _ => false
        end)
       (p_placements (firstPass its containers)) [],
     p_store (firstPass its containers))
  /\ (success (findOptimalPlacement d its containers) = true ->
      Permutation
        (map pl_itemId (placements (findOptimalPlacement d its containers)))
        (map itemId its))
  /\ (success (findOptimalPlacement d its containers) = false ->
      exists u,
        In u its
        /\ Forall (fun c => findPositionInContainer u c = None)
                  (snd (findOptimalPlacementRun d its containers))).
Proof.
  intros Hunk.
  assert (Forall (fun c => Forall (fun r => In (placed r) its) (items c))
                 (p_store (firstPass its containers))) as Hocc.
  { unfold firstPass. apply firstPass_occupants.
    - intros x Hx. apply (Permutation_in _ (sortedItems_Permutation its)), Hx.
    - simpl. eapply Forall_impl; [apply buildContainerMap_empty|].
      simpl. intros c ->. constructor. }
  assert (OccupantsUnknown d (p_store (firstPass its containers))) as Hocc'.
  { eapply Forall_impl; [exact Hocc|]. simpl. intros c Hc.
    eapply Forall_impl; [exact Hc|]. simpl. intros r Hr.
    unfold Unknown in Hunk. rewrite Forall_forall in Hunk. apply Hunk.
    apply list_elem_of_In. unfold placedId. apply in_map, Hr. }
  pose proof (firstPass_ids its containers) as Hperm.
  pose proof (firstPass_unplaced_nowhere its containers) as Hnone.
  assert (findOptimalPlacementRun d its containers
          = (mkPlacementResult
               (match p_unplaced (firstPass its containers) with
                | [] => true
                | _ :: _ => false
                end)
               (p_placements (firstPass its containers)) [],
             p_store (firstPass its containers))) as Hrun.
  { unfold findOptimalPlacementRun.
    destruct (p_unplaced (firstPass its containers)) as [|u us] eqn:Eu.
    - simpl. rewrite app_nil_r. reflexivity.
    - rewrite <- Eu in *.
      rewrite (rearrangeRun_nothing d _ _ Hocc' Hnone). rewrite Eu. simpl.
      rewrite app_nil_r. reflexivity. }
  split; [exact Hrun|]. unfold findOptimalPlacement. rewrite Hrun. simpl.
  split.
  - intros Hs.
    destruct (p_unplaced (firstPass its containers)); [|discriminate].
    simpl in Hperm. rewrite app_nil_r in Hperm. exact Hperm.
  - intros Hs.
    destruct (p_unplaced (firstPass its containers)) as [|u us] eqn:Eu;
      [discriminate|].
    exists u. split.
    + assert (Forall (fun u => In u its)
                     (p_unplaced (firstPass its containers))) as Hin.
      { unfold firstPass. apply firstPass_unplaced_incl; [|constructor].
        intros x Hx.
        apply (Permutation_in _ (sortedItems_Permutation its)), Hx. }
      rewrite Eu in Hin. inversion Hin; subst. assumption.
    + inversion Hnone; subst. assumption.
Qed.

(** The batch [L], [G] for the unit container, unknown to the empty
    database: [G] is too large. *)
Lemma fresh_batch_witness :
  exists u,
    In u [Scenario.L; Scenario.G]
    /\ Forall (fun c => findPositionInContainer u c = None)
              (snd (findOptimalPlacementRun (mkDatabase ∅ ∅ [])
                      [Scenario.L; Scenario.G] [Scenario.unitC])).
Proof.
  apply (proj2 (proj2 (fresh_batch (mkDatabase ∅ ∅ [])
                         [Scenario.L; Scenario.G] [Scenario.unitC]
                         ltac:(repeat constructor)))).
  vm_compute. reflexivity.
Defined.

(** ** Manual placement that succeeds *)

Lemma removeItem_containerId (c : Container) (id : string) :
  containerId (snd (removeItem c id)) = containerId c.
Proof.
  unfold removeItem. destruct (removeFirst id (items c)) as [[r|] l];
    reflexivity.
Qed.

Lemma addItem_containerId (c : Container) (item : Item) (pos : Position) :
  containerId (snd (addItem c item pos)) = containerId c.
Proof. unfold addItem. destruct (canFitItem c item pos); reflexivity. Qed.

Lemma containersAfterLeaving_lookup (d : Database) (item : Item)
  (id cid : string) (container : Container) (pos : Position) :
  DbKeysOk d ->
  db_containers d !! cid = Some container ->
  canFitItem container item pos = true ->
  exists base,
    containersAfterLeaving d item id !! cid = Some base
    /\ containerId base = cid
    /\ canFitItem base item pos = true
    /\ base = (if bool_decide (truthyId (item_containerId item) = Some cid)
               then snd (removeItem container id) else container)
    /\ (forall k c, containersAfterLeaving d item id !! k = Some c ->
                    containerId c = k).
Proof.
  intros [Hkc Hki] Hcont Hfit. unfold containersAfterLeaving.
  pose proof (Hkc _ _ Hcont) as Hcid.
  destruct (truthyId (item_containerId item)) as [o|];
    [|exists container; rewrite bool_decide_eq_false_2 by discriminate;
      auto 6].
  destruct (db_containers d !! o) as [oldC|] eqn:Eold;
    [|exists container; rewrite bool_decide_eq_false_2 by congruence;
      auto 6].
  assert (forall k c,
             <[o := snd (removeItem oldC id)]> (db_containers d) !! k = Some c ->
             containerId c = k) as Hkeys.
  { intros k c Hk. destruct (decide (o = k)) as [->|Hne].
    - rewrite lookup_insert_eq in Hk. injection Hk as <-.
      rewrite removeItem_containerId. eauto.
    - rewrite lookup_insert_ne in Hk by exact Hne. eauto. }
  destruct (decide (o = cid)) as [->|Hne].
  - rewrite Hcont in Eold. injection Eold as <-.
    exists (snd (removeItem container id)). rewrite lookup_insert_eq.
    rewrite bool_decide_eq_true_2 by reflexivity.
    repeat split; auto.
    + rewrite removeItem_containerId. exact Hcid.
    + apply canFitItem_removeItem, Hfit.
  - exists container. rewrite lookup_insert_ne by exact Hne.
    rewrite bool_decide_eq_false_2 by congruence. auto 6.
Qed.

Lemma placeItem_closed_form (d : Database) (id userId : string)
  (timestamp : option string) (cid : string) (pos : Position)
  (item : Item) (container : Container) :
  DbKeysOk d ->
  db.getItem d id = Some item ->
  db.getContainer d cid = Some container ->
  canFitItem container item pos = true ->
  exists base,
    containersAfterLeaving d item id !! cid = Some base
    /\ base = (if bool_decide (truthyId (item_containerId item) = Some cid)
               then snd (removeItem container id) else container)
    /\ placeItem d id userId timestamp cid pos
       = (true,
          mkDatabase
            (<[id := setPlacement item cid pos]> (db_items d))
            (<[cid := with_items base
                        (items base
                           ++ [mkPlaced (setPlacement item cid pos) pos])]>
               (containersAfterLeaving d item id))
            (db_logs d ++ [mkLog timestamp userId "placement" id cid])).
Proof.
  intros Hok Hitem Hcont Hfit.
  destruct (containersAfterLeaving_lookup d item id cid container pos
              Hok Hcont Hfit) as (base & Hbase & Hbid & Hbfit & Hbcase & _).
  exists base. split; [exact Hbase|]. split; [exact Hbcase|].
  destruct Hok as [Hkc Hki]. pose proof (Hki _ _ Hitem) as Hid.
  unfold placeItem. rewrite Hitem, Hcont, Hfit. cbn [negb].
  assert (match truthyId (item_containerId item) with
          | Some old =>
              match db.getContainer d old with
              | Some oldContainer =>
                  db.updateContainer
                    (db.mutateContainer d old
                       (snd (removeItem oldContainer id)))
                    (snd (removeItem oldContainer id))
              | None => d
              end
          | None => d
          end
          = mkDatabase (db_items d) (containersAfterLeaving d item id)
                       (db_logs d)) as ->.
  { unfold containersAfterLeaving, db.getContainer.
    destruct (truthyId (item_containerId item)) as [o|];
      [|destruct d; reflexivity].
    destruct (db_containers d !! o) as [oldC|] eqn:Eold;
      [|destruct d; reflexivity].
    unfold db.updateContainer, db.mutateContainer. simpl.
    rewrite removeItem_containerId, (Hkc _ _ Eold), insert_insert_eq.
    reflexivity. }
  unfold db.updateItem, db.mutateItem, db.getContainer, db.updateContainer,
    db.mutateContainer, db.addLog. simpl.
  rewrite Hid, insert_insert_eq, Hbase.
  unfold addItem.
  change (canFitItem base (setPlacement item cid pos) pos)
    with (canFitItem base item pos).
  rewrite Hbfit. simpl.
  rewrite Hbid, insert_insert_eq. reflexivity.
Qed.

Lemma placeItem_keys (d : Database) (id userId : string)
  (timestamp : option string) (cid : string) (pos : Position) :
  DbKeysOk d -> DbKeysOk (snd (placeItem d id userId timestamp cid pos)).
Proof.
  intros Hok.
  destruct (db.getItem d id) as [item|] eqn:Hitem;
    [|unfold placeItem; rewrite Hitem; exact Hok].
  destruct (db.getContainer d cid) as [container|] eqn:Hcont;
    [|unfold placeItem; rewrite Hitem, Hcont; exact Hok].
  destruct (canFitItem container item pos) eqn:Hfit;
    [|unfold placeItem; rewrite Hitem, Hcont, Hfit; exact Hok].
  destruct (containersAfterLeaving_lookup d item id cid container pos
              Hok Hcont Hfit) as (base & Hbase & Hbid & _ & _ & Hkeys).
  destruct (placeItem_closed_form d id userId timestamp cid pos item
              container Hok Hitem Hcont Hfit) as (base' & Hbase' & _ & ->).
  rewrite Hbase in Hbase'. injection Hbase' as <-.
  destruct Hok as [Hkc Hki]. split; simpl.
  - intros k c Hk. destruct (decide (cid = k)) as [->|Hne].
    + rewrite lookup_insert_eq in Hk. injection Hk as <-. exact Hbid.
    + rewrite lookup_insert_ne in Hk by exact Hne. eauto.
  - intros k it Hk. destruct (decide (id = k)) as [->|Hne].
    + rewrite lookup_insert_eq in Hk. injection Hk as <-. simpl. eauto.
    + rewrite lookup_insert_ne in Hk by exact Hne. eauto.
Qed.

(** X20. On a database that stores every item and container under its
    own id, [placeItem] of a known item into a known container at a
    position that fits succeeds with this effect: the item's record gets
    the container id and the position; the item leaves the container its
    record named, if that exists; the target container gets the item's
    record as its last record; one placement log is appended; every
    other item and container is as before. *)
Theorem placeItem_success (d : Database) (id userId : string)
  (timestamp : option string) (cid : string) (pos : Position)
  (item : Item) (container : Container) :
  DbKeysOk d ->
  db.getItem d id = Some item ->
  db.getContainer d cid = Some container ->
  canFitItem container item pos = true ->
  placeItem d id userId timestamp cid pos
  = (true,
     mkDatabase
       (<[id := setPlacement item cid pos]> (db_items d))
       (<[cid :=
            with_items container
              (items (if bool_decide
                           (truthyId (item_containerId item) = Some cid)
                      then snd (removeItem container id) else container)
                 ++ [mkPlaced (setPlacement item cid pos) pos])]>
          (containersAfterLeaving d item id))
       (db_logs d ++ [mkLog timestamp userId "placement" id cid]))
  /\ db.getItem (snd (placeItem d id userId timestamp cid pos)) id
     = Some (setPlacement item cid pos)
  /\ (exists l,
         option_map items
           (db.getContainer (snd (placeItem d id userId timestamp cid pos))
                            cid)
         = Some (l ++ [mkPlaced (setPlacement item cid pos) pos]))
  /\ (forall k,
         k <> cid -> truthyId (item_containerId item) <> Some k ->
         db.getContainer (snd (placeItem d id userId timestamp cid pos)) k
         = db.getContainer d k)
  /\ (forall k,
         k <> id ->
         db.getItem (snd (placeItem d id userId timestamp cid pos)) k
         = db.getItem d k).
Proof.
  intros Hok Hitem Hcont Hfit.
  destruct (placeItem_closed_form d id userId timestamp cid pos item
              container Hok Hitem Hcont Hfit) as (base & Hbase & Hb & Heq).
  assert (with_items base
            (items base ++ [mkPlaced (setPlacement item cid pos) pos])
          = with_items container
              (items base ++ [mkPlaced (setPlacement item cid pos) pos]))
    as Hshape.
  { rewrite Hb. destruct (bool_decide _); [|reflexivity].
    unfold removeItem.
    destruct (removeFirst id (items container)) as [[r|] l]; reflexivity. }
  rewrite Hshape in Heq. rewrite <- Hb. split; [exact Heq|].
  rewrite Heq. unfold db.getItem, db.getContainer. simpl.
  split; [apply lookup_insert_eq|]. split; [|split].
  - exists (items base). rewrite lookup_insert_eq. reflexivity.
  - intros k Hk Hold. rewrite lookup_insert_ne by auto.
    unfold containersAfterLeaving.
    destruct (truthyId (item_containerId item)) as [o|]; [|reflexivity].
    destruct (db_containers d !! o); [|reflexivity].
    rewrite lookup_insert_ne by congruence. reflexivity.
  - intros k Hk. rewrite lookup_insert_ne by auto. reflexivity.
Qed.

(** [X] moves within the shelf, to the free corner. *)
Lemma placeItem_success_witness :
  db.getItem
    (snd (placeItem Scenario.dbShelf "X" "u" None "C1"
                    (Scenario.box 5 5 5 2)))
    "X"
  = Some (setPlacement (Scenario.cube "X" 2 1) "C1" (Scenario.box 5 5 5 2)).
Proof.
  assert (DbKeysOk Scenario.dbShelf) as Hok.
  { split; intros k c Hk; unfold Scenario.dbShelf in Hk; simpl in Hk;
      apply lookup_insert_Some in Hk;
      destruct Hk as [[<- <-]|[_ Hk]]; try reflexivity;
      rewrite lookup_empty in Hk; discriminate. }
  apply (proj1 (proj2 (placeItem_success Scenario.dbShelf "X" "u" None "C1"
                         (Scenario.box 5 5 5 2) (Scenario.cube "X" 2 1)
                         Scenario.shelf Hok eq_refl eq_refl eq_refl))).
Defined.

(** ** The keys of the database *)

Lemma DbKeysOk_addContainer d c : DbKeysOk d -> DbKeysOk (db.addContainer d c).
Proof.
  intros [Hkc Hki]. split; simpl; [|exact Hki].
  intros k c' Hk. apply lookup_insert_Some in Hk.
  destruct Hk as [[<- <-]|[_ Hk]]; eauto.
Qed.

Lemma DbKeysOk_addItem d item : DbKeysOk d -> DbKeysOk (db.addItem d item).
Proof.
  intros [Hkc Hki]. split; simpl; [exact Hkc|].
  intros k it Hk. apply lookup_insert_Some in Hk.
  destruct Hk as [[<- <-]|[_ Hk]]; eauto.
Qed.

Lemma route_fold_containers_keys objs d :
  DbKeysOk d -> DbKeysOk (fold_left db.addContainer objs d).
Proof.
  revert d. induction objs as [|o objs IH]; intros d H; simpl; auto.
  apply IH, DbKeysOk_addContainer, H.
Qed.

Lemma route_fold_items_keys (its : list Item) (pls : list Placement) d :
  DbKeysOk d ->
  DbKeysOk
    (fold_left
       (fun d' pl =>
          match List.find (fun it => String.eqb (itemId it) (pl_itemId pl))
                          its with
          | Some item =>
              db.addItem d'
                (setPlacement item (pl_containerId pl) (pl_position pl))
          | None => d'
          end) pls d).
Proof.
  revert d. induction pls as [|pl pls IH]; intros d H; simpl; auto.
  apply IH. destruct (List.find _ its); auto. apply DbKeysOk_addItem, H.
Qed.

(** X21. A database that stores every container and every item under
    its own id still does so after [addContainer], [addItem],
    [placeItem] and the placement route. *)
Theorem keys_stay_consistent (d : Database) :
  DbKeysOk d ->
  (forall c, DbKeysOk (db.addContainer d c))
  /\ (forall item, DbKeysOk (db.addItem d item))
  /\ (forall id userId timestamp cid pos,
         DbKeysOk (snd (placeItem d id userId timestamp cid pos)))
  /\ (forall its containers,
         DbKeysOk (snd (placementRoute d its containers))).
Proof.
  intros Hok. split; [|split; [|split]].
  - intros c. apply DbKeysOk_addContainer, Hok.
  - intros item. apply DbKeysOk_addItem, Hok.
  - intros. apply placeItem_keys, Hok.
  - intros its containers. unfold placementRoute.
    destruct (success _); simpl; [|exact Hok].
    apply route_fold_items_keys, route_fold_containers_keys, Hok.
Qed.

(** The shelf database after the batch route for [B]. *)
Lemma keys_stay_consistent_witness :
  DbKeysOk (snd (placementRoute Scenario.dbWithC1 [Scenario.B] [Scenario.C1])).
Proof.
  apply (keys_stay_consistent Scenario.dbWithC1).
  split; intros k c Hk; unfold Scenario.dbWithC1 in Hk; simpl in Hk;
    apply lookup_insert_Some in Hk;
    destruct Hk as [[<- <-]|[_ Hk]]; try reflexivity;
    rewrite lookup_empty in Hk; discriminate.
Defined.

(** ** What the placement route stores *)

Lemma route_fold_items_lookup (its : list Item) (pls : list Placement) d id :
  db.getItem
    (fold_left
       (fun d' pl =>
          match List.find (fun it => String.eqb (itemId it) (pl_itemId pl))
                          its with
          | Some item =>
              db.addItem d'
                (setPlacement item (pl_containerId pl) (pl_position pl))
          | None => d'
          end) pls d) id
  = match List.find (fun pl => String.eqb (pl_itemId pl) id) (rev pls),
          List.find (fun it => String.eqb (itemId it) id) its with
    | Some pl, Some item =>
        Some (setPlacement item (pl_containerId pl) (pl_position pl))
    | _, _ => db.getItem d id
    end.
Proof.
  induction pls as [|pl pls IH] using rev_ind.
  - simpl. destruct (List.find (fun it => String.eqb (itemId it) id) its);
      reflexivity.
  - rewrite fold_left_app, rev_app_distr. simpl.
    destruct (String.eqb_spec (pl_itemId pl) id) as [Heq|Hne].
    + rewrite Heq.
      destruct (List.find (fun it => String.eqb (itemId it) id) its)
        as [item|] eqn:Ef.
      * unfold db.getItem, db.addItem. simpl.
        apply List.find_some in Ef. destruct Ef as [_ Ef].
        apply String.eqb_eq in Ef. rewrite Ef. apply lookup_insert_eq.
      * rewrite IH.
        destruct (List.find (fun pl => String.eqb (pl_itemId pl) id)
                            (rev pls)); reflexivity.
    + destruct (List.find (fun it => String.eqb (itemId it) (pl_itemId pl))
                          its) as [item|] eqn:Ef; [|exact IH].
      unfold db.getItem, db.addItem. simpl.
      apply List.find_some in Ef. destruct Ef as [_ Ef].
      apply String.eqb_eq in Ef.
      rewrite lookup_insert_ne by congruence. exact IH.
Qed.

Lemma route_fold_items_frame (its : list Item) (pls : list Placement) d :
  db_containers
    (fold_left
       (fun d' pl =>
          match List.find (fun it => String.eqb (itemId it) (pl_itemId pl))
                          its with
          | Some item =>
              db.addItem d'
                (setPlacement item (pl_containerId pl) (pl_position pl))
          | None => d'
          end) pls d)
  = db_containers d
  /\ db_logs
       (fold_left
          (fun d' pl =>
             match List.find (fun it => String.eqb (itemId it) (pl_itemId pl))
                             its with
             | Some item =>
                 db.addItem d'
                   (setPlacement item (pl_containerId pl) (pl_position pl))
             | None => d'
             end) pls d)
     = db_logs d.
Proof.
  revert d. induction pls as [|pl pls IH]; intros d; simpl; auto.
  match goal with
  | |- context [fold_left _ pls ?d1] => destruct (IH d1) as [H1 H2]
  end.
  rewrite H1, H2.
  destruct (List.find (fun it => String.eqb (itemId it) (pl_itemId pl)) its);
    auto.
Qed.

Lemma route_fold_containers_frame (objs : list Container) (d : Database) :
  db_items (fold_left db.addContainer objs d) = db_items d
  /\ db_logs (fold_left db.addContainer objs d) = db_logs d.
Proof.
  revert d. induction objs as [|o objs IH]; intros d; simpl; auto.
  destruct (IH (db.addContainer d o)) as [H1 H2]. rewrite H1, H2. auto.
Qed.

Lemma route_fold_containers_lookup (d0 : Database) (containers : list Container)
  (d : Database) :
  DbKeysOk d0 ->
  (forall k c, db_containers d0 !! k = Some c -> db_containers d !! k = Some c) ->
  forall k c,
    db_containers d0 !! k = Some c ->
    db_containers (fold_left db.addContainer
                     (containerObjects d0 containers) d) !! k
    = Some c.
Proof.
  intros [Hkc _]. revert d.
  induction containers as [|c cs IH]; intros d Hd; simpl; [auto|].
  apply IH. intros k c0 Hk. simpl.
  unfold db.getContainer.
  destruct (db_containers d0 !! containerId c) as [existing|] eqn:Ee.
  - rewrite (Hkc _ _ Ee).
    destruct (decide (containerId c = k)) as [<-|Hne].
    + rewrite lookup_insert_eq. congruence.
    + rewrite lookup_insert_ne by exact Hne. auto.
  - rewrite lookup_insert_ne by congruence. auto.
Qed.

(** X22. The placement route changes the database only when the result
    says success.  Then, on a database that stores its containers under
    their own ids, every container that was stored is stored unchanged
    (the placements are not recorded in it); every item with a
    placement is stored with the container id and the position of its
    last placement in the list; every other item and the logs are as
    before. *)
Theorem route_effect (d : Database) (its : list Item)
  (containers : list Container) :
  (success (fst (placementRoute d its containers)) = false ->
   snd (placementRoute d its containers) = d)
  /\ (success (fst (placementRoute d its containers)) = true ->
      (DbKeysOk d ->
       forall k c,
         db.getContainer d k = Some c ->
         db.getContainer (snd (placementRoute d its containers)) k = Some c)
      /\ (forall id,
             db.getItem (snd (placementRoute d its containers)) id
             = match List.find (fun pl => String.eqb (pl_itemId pl) id)
                         (rev (placements
                                 (fst (placementRoute d its containers)))),
                     List.find (fun it => String.eqb (itemId it) id) its with
               | Some pl, Some item =>
                   Some (setPlacement item (pl_containerId pl)
                                      (pl_position pl))
               | _, _ => db.getItem d id
               end)
      /\ db_logs (snd (placementRoute d its containers)) = db_logs d).
Proof.
  unfold placementRoute.
  destruct (success (findOptimalPlacement d its (containerObjects d containers)))
    eqn:Es; cbn [fst snd]; rewrite ?Es.
  - split; [discriminate|]. intros _.
    destruct (route_fold_items_frame its
                (placements (findOptimalPlacement d its
                               (containerObjects d containers)))
                (fold_left db.addContainer (containerObjects d containers) d))
      as [Hc Hl].
    destruct (route_fold_containers_frame (containerObjects d containers) d)
      as [Hi Hl'].
    split; [|split].
    + intros Hok k c Hk. unfold db.getContainer. rewrite Hc.
      apply (route_fold_containers_lookup d containers d Hok); auto.
    + intros id. rewrite route_fold_items_lookup.
      unfold db.getItem. rewrite Hi. reflexivity.
    + rewrite Hl, Hl'. reflexivity.
  - split; [reflexivity|discriminate].
Qed.

(** The route for [B] and [C1] leaves the stored [C1], with [A] alone,
    as it was. *)
Lemma route_effect_witness :
  db.getContainer
    (snd (placementRoute Scenario.dbWithC1 [Scenario.B] [Scenario.C1])) "C1"
  = Some Scenario.C1withA.
Proof.
  apply (proj1 (proj2 (route_effect Scenario.dbWithC1 [Scenario.B]
                         [Scenario.C1]) eq_refl)).
  - split; intros k c Hk; unfold Scenario.dbWithC1 in Hk; simpl in Hk;
      apply lookup_insert_Some in Hk;
      destruct Hk as [[<- <-]|[_ Hk]]; try reflexivity;
      rewrite lookup_empty in Hk; discriminate.
  - reflexivity.
Defined.

(** ** Item: usage and expiry *)

Lemma use_iter (u : Usage) (n : Z) (k : nat) :
  remainingUses u = Count n -> 0 <= n ->
  Nat.iter k (fun v => snd (use v)) u
  = mkUsage (expiryDate u) (usageLimit u)
            (Count (Z.max 0 (n - Z.of_nat k))).
Proof.
  intros Hn Hpos. induction k as [|k IH].
  - simpl. destruct u; simpl in *. rewrite Hn. f_equal. f_equal. lia.
  - simpl. rewrite IH. unfold use. simpl.
    destruct (Z.gtb_spec (Z.max 0 (n - Z.of_nat k)) 0) as [Hgt|Hle]; simpl.
    + f_equal. f_equal. lia.
    + f_equal. f_equal. lia.
Qed.

(** X23. [use] counts the remaining uses down to zero and not below:
    from a count [n >= 0], [k] calls leave [max 0 (n - k)], so the item
    is out of uses from the [n]-th call on and not before; the value
    returned is the count left; without a count ([undefined] or [null])
    [use] changes nothing; the expiry date and the limit are never
    touched. *)
Theorem use_counts_down (u : Usage) :
  (forall n k,
      remainingUses u = Count n -> 0 <= n ->
      remainingUses (Nat.iter k (fun v => snd (use v)) u)
      = Count (Z.max 0 (n - Z.of_nat k))
      /\ (isOutOfUses (Nat.iter k (fun v => snd (use v)) u) = true
          <-> n <= Z.of_nat k))
  /\ fst (use u) = remainingUses (snd (use u))
  /\ (remainingUses u = NoCounter \/ remainingUses u = NullCounter ->
      snd (use u) = u)
  /\ expiryDate (snd (use u)) = expiryDate u
  /\ usageLimit (snd (use u)) = usageLimit u.
Proof.
  split; [|split; [|split; [|split]]].
  - intros n k Hn Hpos. rewrite (use_iter u n k Hn Hpos).
    unfold isOutOfUses. simpl. split; [reflexivity|].
    rewrite Z.leb_le. lia.
  - unfold use. destruct (remainingUses u) as [| |n] eqn:E; simpl; auto.
    destruct (n >? 0); simpl; auto.
  - unfold use. intros [->| ->]; reflexivity.
  - unfold use. destruct (remainingUses u) as [| |n]; auto.
    destruct (n >? 0); reflexivity.
  - unfold use. destruct (remainingUses u) as [| |n]; auto.
    destruct (n >? 0); reflexivity.
Qed.

(** Three uses of an item with a limit of two. *)
Lemma use_counts_down_witness :
  remainingUses
    (Nat.iter 3 (fun v => snd (use v)) (newUsage None (Count 2) NoCounter))
  = Count 0.
Proof.
  apply (proj1 (use_counts_down (newUsage None (Count 2) NoCounter)) 2 3%nat).
  - reflexivity.
  - lia.
Defined.

(** X24. The waste reason agrees with [isWaste]: there is a reason
    exactly when the item is waste, "Expired" exactly when it is expired
    (also when it is out of uses as well), "Out of Uses" otherwise.  An
    item without an expiry date, or with a date that is not valid, never
    expires.  An item built with a usage limit of [null] and no count of
    its own is out of uses from the start, one built without a limit
    ([undefined]) never is. *)
Theorem waste_reason (u : Usage) (currentDate : JsDate) :
  (getWasteReason u currentDate = None <-> isWaste u currentDate = false)
  /\ (getWasteReason u currentDate = Some "Expired"%string
      <-> isExpired u currentDate = true)
  /\ (getWasteReason u currentDate = Some "Out of Uses"%string
      <-> isExpired u currentDate = false /\ isOutOfUses u = true)
  /\ (expiryDate u = None \/ expiryDate u = Some InvalidDate
      \/ currentDate = InvalidDate ->
      isExpired u currentDate = false)
  /\ (forall e, isOutOfUses (newUsage e NullCounter NoCounter) = true
                /\ isOutOfUses (newUsage e NullCounter NullCounter) = true
                /\ isOutOfUses (newUsage e NoCounter NoCounter) = false)
  /\ (forall e limit n,
         isOutOfUses (newUsage e limit (Count n)) = true <-> n <= 0).
Proof.
  unfold getWasteReason, isWaste.
  split; [|split; [|split; [|split; [|split]]]].
  - destruct (isExpired u currentDate), (isOutOfUses u); simpl;
      split; congruence.
  - destruct (isExpired u currentDate), (isOutOfUses u); simpl;
      split; congruence.
  - destruct (isExpired u currentDate), (isOutOfUses u); simpl;
      (split; [intros H; try discriminate H; auto
              |intros [H1 H2]; try discriminate; auto]).
  - unfold isExpired. intros [->|[->| ->]]; auto.
    destruct (expiryDate u) as [[|x]|]; reflexivity.
  - intros e. repeat split.
  - intros e limit n. unfold isOutOfUses. simpl. apply Z.leb_le.
Qed.

(** An item without an expiry date. *)
Lemma waste_reason_witness :
  isExpired (newUsage None (Count 2) NoCounter) (DateAt 5) = false.
Proof.
  apply (proj1 (proj2 (proj2 (proj2
           (waste_reason (newUsage None (Count 2) NoCounter) (DateAt 5)))))).
  left. reflexivity.
Defined.
